(** * Lviv outage dashboard: schedule normalisation and interval derivation

    A shallow embedding of the derivation core of the dashboard (the
    helpers of [utils/outage] and the memoised derivations of the
    dashboard component) together with the properties stated for it.

    Conventions of the embedding.

    - JavaScript values that come out of [JSON.parse] (plus [undefined]) are
      the inductive type [value]; an object is the finite map of its own
      properties (the properties inherited from the built-in prototypes
      are not modelled: none of the names read by the program is one of
      them, unless a today pointer spells one).  Numbers are integers, as
      the timestamps of the payload are; a status that is a number is only
      ever tested for being zero.  Strings are sequences of 8-bit code
      units.
    - Property access [v[k]] throws a [TypeError] on [null] / [undefined];
      it is modelled by [get_prop], which returns [None] in that case.
      Optional chaining [v?.[k]] is the total function [get_opt].
      Derivations that use plain property access live in the [option]
      monad; [None] stands for an uncaught exception.
    - Every time coordinate of the program is a multiple of [0.5].  The
      coordinate [x] is represented by the integer [2 * x]: [hours 24] is
      the end of the day and [half_hour] is [0.5]. *)

From Stdlib Require Import Ascii.
From stdpp Require Import gmap strings list pretty sorting.

Open Scope Z_scope.

(** ** JavaScript values *)

#[warnings="-register-all"]
Inductive value : Type :=
  | VUndefined
  | VNull
  | VBool (b : bool)
  | VNum (n : Z)
  | VStr (s : string)
  | VArr (items : list value)
  | VObj (fields : gmap string value).

(** [Boolean(v)], also the test performed by [!v] and [if (v)]. *)
Definition truthy (v : value) : bool :=
  match v with
  | VUndefined | VNull => false
  | VBool b => b
  | VNum n => negb (n =? 0)
  | VStr s => negb (String.eqb s "")
  | VArr _ | VObj _ => true
  end.

(** [String(n)] for an integer [n]. *)
Definition String_of_number (n : Z) : string := pretty n.

(** [String(v)].  An array is joined with commas, [null] and [undefined]
    elements contributing the empty string. *)
Fixpoint to_String (v : value) : string :=
  match v with
  | VUndefined => "undefined"
  | VNull => "null"
  | VBool true => "true"
  | VBool false => "false"
  | VNum n => String_of_number n
  | VStr s => s
  | VArr items =>
      String.concat ","
        (map (fun x => match x with
                       | VUndefined | VNull => ""%string
                       | _ => to_String x
                       end) items)
  | VObj _ => "[object Object]"
  end.

(** The index denoted by a property name on an array or string of length
    [len]: the [i < len] with [String(i) = k], if any. *)
Definition index_of_key (k : string) (len : nat) : option nat :=
  List.find (fun i => String.eqb (pretty i) k) (seq 0 len).

(** [v[k]]: [None] is the [TypeError] raised on [null] and [undefined]. *)
Definition get_prop (v : value) (k : string) : option value :=
  match v with
  | VUndefined | VNull => None
  | VBool _ | VNum _ => Some VUndefined
  | VStr s =>
      Some (if String.eqb k "length" then VNum (Z.of_nat (String.length s))
            else match index_of_key k (String.length s) with
                 | Some i =>
                     match String.get i s with
                     | Some c => VStr (String c EmptyString)
                     | None => VUndefined
                     end
                 | None => VUndefined
                 end)
  | VArr items =>
      Some (if String.eqb k "length" then VNum (Z.of_nat (length items))
            else match index_of_key k (length items) with
                 | Some i => default VUndefined (items !! i)
                 | None => VUndefined
                 end)
  | VObj fields => Some (default VUndefined (fields !! k))
  end.

(** [v?.[k]]: [undefined] when [v] is [null] or [undefined]. *)
Definition get_opt (v : value) (k : string) : value :=
  default VUndefined (get_prop v k).

(** [v ?? d]. *)
Definition nullish_or (v d : value) : value :=
  match v with
  | VUndefined | VNull => d
  | _ => v
  end.

(** [v === s] for a string literal [s]. *)
Definition is_str (v : value) (s : string) : bool :=
  match v with
  | VStr s' => String.eqb s' s
  | _ => false
  end.

(** [l.includes(v)] for an array [l] of string literals. *)
Definition includes (l : list string) (v : value) : bool :=
  existsb (is_str v) l.

(** ** The helpers of [utils/outage] *)

Definition STATUS_ORDER : list string := ["yes"; "maybe"; "no"]%string.

Definition getTodayTimestamp (data : value) : value :=
  get_opt (get_opt data "fact") "today".

Definition getTodayData (data : value) : value :=
  let ts := getTodayTimestamp data in
  if negb (truthy ts) then VNull
  else nullish_or
         (get_opt (get_opt (get_opt data "fact") "data") (to_String ts))
         VNull.

Definition normalizeStatusKey (statusKey : value) : value :=
  if negb (truthy statusKey) then VStr "maybe"
  else if includes STATUS_ORDER statusKey then statusKey
  else if is_str statusKey "first" || is_str statusKey "second" then statusKey
  else VStr "maybe".

(** ** The dashboard component: formatting *)

(** Time coordinates in half-hour units. *)
Definition hours (h : Z) : Z := 2 * h.
Definition half_hour : Z := 1.

(** [s.padStart(n, c)] for a one-character pad string. *)
Fixpoint pad_left (n : nat) (c : ascii) (s : string) : string :=
  match n with
  | O => s
  | S n' => String c (pad_left n' c s)
  end.

Definition padStart (n : nat) (c : ascii) (s : string) : string :=
  pad_left (n - String.length s) c s.

Definition pad2 (v : Z) : string :=
  padStart 2 "0"%char (String_of_number v).

(** [Math.floor(t)] is the floor of [t / 2] in half-hour units, and
    [t % 1 === 0.5] holds when the truncated remainder of [t] by [2] is
    [1]. *)
Definition formatHalfHour (t : Z) : string :=
  let hour := t `div` 2 in
  let minutes := if t `rem` 2 =? 1 then 30 else 0 in
  pad2 hour +:+ ":" +:+ pad2 minutes.

Definition formatHalfRange (startT : Z) : string :=
  let endT := startT + half_hour in
  formatHalfHour startT +:+ "-" +:+ formatHalfHour endT.

(** The template [`${formatHalfHour(a)}-${formatHalfHour(b)}`]. *)
Definition formatInterval (ab : Z * Z) : string :=
  formatHalfHour ab.1 +:+ "-" +:+ formatHalfHour ab.2.

(** ** Status classification *)

Definition expandHourToHalves (hourStatusKey : value) : string * string :=
  let k := normalizeStatusKey hourStatusKey in
  if is_str k "first" then ("no", "yes")
  else if is_str k "second" then ("yes", "no")
  else if is_str k "yes" then ("yes", "yes")
  else if is_str k "no" then ("no", "no")
  else if is_str k "maybe" then ("maybe", "maybe")
  else ("maybe", "maybe").

Definition isOutageKey (statusKey : value) : bool :=
  let k := normalizeStatusKey statusKey in
  is_str k "no" || is_str k "first" || is_str k "second".

Definition statusToLevel (statusKey : value) : Z :=
  let k := normalizeStatusKey statusKey in
  if is_str k "yes" then 2
  else if is_str k "maybe" then 1
  else if is_str k "no" then 0
  else 1.

Definition isNoAtHour (statusKey : value) : bool :=
  let k := normalizeStatusKey statusKey in
  is_str k "no".

Definition isMaybeKey (statusKey : value) : bool :=
  let k := normalizeStatusKey statusKey in
  is_str k "maybe".

(** ** The half-hour timeline *)

(** One element of [chartData]. *)
Record row : Type := Row {
  t : Z;
  rangeLabel : string;
  homeKey : string;
  medicKey : string;
  reserveKey : string;
  home : Z;
  medic : Z;
  reserve : Z;
  overlapNo : bool
}.

(** The [key] fields of the [GROUPS] table: home, medic, reserve. *)
Definition GROUP_HOME : string := "GPV1.1".
Definition GROUP_MEDIC : string := "GPV2.1".
Definition GROUP_RESERVE : string := "GPV5.1".

Definition GROUPS : list string := [GROUP_HOME; GROUP_MEDIC; GROUP_RESERVE].

(** The two rows pushed by one iteration of the loop of [chartData]. *)
Definition chartRowsOfHour (home medic reserve : value) (hourIndex : Z)
  : list row :=
  let baseT := hourIndex - 1 in
  let '(homeA, homeB) :=
    expandHourToHalves (get_opt home (String_of_number hourIndex)) in
  let '(medicA, medicB) :=
    expandHourToHalves (get_opt medic (String_of_number hourIndex)) in
  let '(reserveA, reserveB) :=
    expandHourToHalves (get_opt reserve (String_of_number hourIndex)) in
  let t1 := hours baseT in
  let t2 := hours baseT + half_hour in
  let overlap1 := isNoAtHour (VStr medicA) && isNoAtHour (VStr reserveA) in
  let overlap2 := isNoAtHour (VStr medicB) && isNoAtHour (VStr reserveB) in
  [ {| t := t1;
       rangeLabel := formatHalfRange t1;
       homeKey := homeA;
       medicKey := medicA;
       reserveKey := reserveA;
       home := statusToLevel (VStr homeA);
       medic := statusToLevel (VStr medicA);
       reserve := statusToLevel (VStr reserveA);
       overlapNo := overlap1 |};
    {| t := t2;
       rangeLabel := formatHalfRange t2;
       homeKey := homeB;
       medicKey := medicB;
       reserveKey := reserveB;
       home := statusToLevel (VStr homeB);
       medic := statusToLevel (VStr medicB);
       reserve := statusToLevel (VStr reserveB);
       overlapNo := overlap2 |} ].

(** [chartData], as a function of [today].  The loop over
    [hourIndex = 1 .. 24] pushes two rows per iteration. *)
Definition chartData (today : value) : option (list row) :=
  if negb (truthy today) then Some []
  else
    home ← (fun v => nullish_or v VNull) <$> get_prop today GROUP_HOME;
    medic ← (fun v => nullish_or v VNull) <$> get_prop today GROUP_MEDIC;
    reserve ← (fun v => nullish_or v VNull) <$> get_prop today GROUP_RESERVE;
    Some (fold_left
            (fun rows hourIndex =>
               rows ++ chartRowsOfHour home medic reserve hourIndex)
            (seqZ 1 24) []).

(** ** Per-group outage flag *)

(** The inner loop of [groupHasOutages], leaving at the first hour whose
    expansion has an outage half. *)
Fixpoint hasOutageLoop (group : value) (hourIndices : list Z) : bool :=
  match hourIndices with
  | [] => false
  | hourIndex :: rest =>
      let '(a, b) :=
        expandHourToHalves (get_opt group (String_of_number hourIndex)) in
      if isOutageKey (VStr a) || isOutageKey (VStr b) then true
      else hasOutageLoop group rest
  end.

(** [groupHasOutages]: the result object maps each group key to a
    boolean. *)
Definition groupHasOutages (today : value) : option (gmap string bool) :=
  if negb (truthy today) then
    Some (<[GROUP_RESERVE := false]>
            (<[GROUP_MEDIC := false]> (<[GROUP_HOME := false]> ∅)))
  else
    fold_left
      (fun acc gkey =>
         res ← acc;
         group ← get_prop today gkey;
         let has := hasOutageLoop group (seqZ 1 24) in
         Some (<[gkey := has]> res))
      GROUPS (Some ∅).

(** ** Interval extraction *)

(** One iteration of the scanning loop shared by both extraction
    functions: [on] is the predicate at the current row, [rt] its [t];
    the state is the [intervals] array and [startT] ([None] for [null]). *)
Definition scanStep (on : bool) (rt : Z) (st : list (Z * Z) * option Z)
  : list (Z * Z) * option Z :=
  let '(intervals, startT) := st in
  let startT :=
    match startT with
    | None => if on then Some rt else None
    | Some _ => startT
    end in
  match startT with
  | Some s => if negb on then (intervals ++ [(s, rt)], None)
              else (intervals, startT)
  | None => (intervals, startT)
  end.

(** What follows the loop: the pending interval is closed at 24 and the
    intervals that are not of positive length are filtered out. *)
Definition scanFinish (st : list (Z * Z) * option Z) : list (Z * Z) :=
  let '(intervals, startT) := st in
  let intervals :=
    match startT with
    | Some s => intervals ++ [(s, hours 24)]
    | None => intervals
    end in
  List.filter (fun ab => ab.1 <? ab.2) intervals.

(** The array [intervals] of [getNoIntervalsFromRows] after [.filter]. *)
Definition noIntervals (rows : list row) (pickKey : row → value)
  : list (Z * Z) :=
  if (length rows =? 0)%nat then []
  else
    scanFinish
      (fold_left (fun st r => scanStep (isNoAtHour (pickKey r)) (t r) st)
         rows ([], None)).

Definition getNoIntervalsFromRows (rows : list row) (pickKey : row → value)
  : list string :=
  map formatInterval (noIntervals rows pickKey).

(** The array [intervals] of [getBoolIntervalsFromRows] after [.filter]. *)
Definition boolIntervals (rows : list row) (pickBool : row → value)
  : list (Z * Z) :=
  if (length rows =? 0)%nat then []
  else
    scanFinish
      (fold_left (fun st r => scanStep (truthy (pickBool r)) (t r) st)
         rows ([], None)).

Definition getBoolIntervalsFromRows (rows : list row) (pickBool : row → value)
  : list string :=
  map formatInterval (boolIntervals rows pickBool).

(** The four row selectors passed by [outageLines]. *)
Definition pickHome (r : row) : value := VStr (homeKey r).
Definition pickMedic (r : row) : value := VStr (medicKey r).
Definition pickReserve (r : row) : value := VStr (reserveKey r).
Definition pickOverlap (r : row) : value := VBool (overlapNo r).

Record lines : Type := Lines {
  lines_home : list string;
  lines_medic : list string;
  lines_reserve : list string;
  lines_overlap : list string
}.

Definition outageLines (chartData : list row) : lines :=
  if (length chartData =? 0)%nat then
    {| lines_home := []; lines_medic := [];
       lines_reserve := []; lines_overlap := [] |}
  else
    {| lines_home := getNoIntervalsFromRows chartData pickHome;
       lines_medic := getNoIntervalsFromRows chartData pickMedic;
       lines_reserve := getNoIntervalsFromRows chartData pickReserve;
       lines_overlap := getBoolIntervalsFromRows chartData pickOverlap |}.

(** ** Transition ticks *)

(** [ticks.add(x)] on a [Set] kept in insertion order. *)
Definition Set_add (x : Z) (ticks : list Z) : list Z :=
  if decide (x ∈ ticks) then ticks else ticks ++ [x].

(** The body of the loop of [transitionTicks] at index [i]; reading a
    field of a row outside the array would raise. *)
Definition tickStep (chartData : list row) (acc : option (list Z)) (i : nat)
  : option (list Z) :=
  ticks ← acc;
  prev ← chartData !! (i - 2)%nat;
  curr ← chartData !! (i - 1)%nat;
  let ticks :=
    if negb (String.eqb (medicKey prev) (medicKey curr))
    then Set_add (t curr) ticks else ticks in
  let ticks :=
    if negb (String.eqb (reserveKey prev) (reserveKey curr))
    then Set_add (t curr) ticks else ticks in
  let ticks :=
    if negb (Bool.eqb (overlapNo prev) (overlapNo curr))
    then Set_add (t curr) ticks else ticks in
  Some ticks.

(** [transitionTicks]: [i] runs from [2] to [chartData.length]; the final
    [Array.from(ticks).sort((a, b) => a - b)] sorts numerically. *)
Definition transitionTicks (chartData : list row) : option (list Z) :=
  if (length chartData =? 0)%nat then Some [hours 0; hours 24]
  else
    merge_sort Z.le <$>
      fold_left (tickStep chartData)
        (seq 2 (length chartData - 1)) (Some [hours 0; hours 24]).


(** * Specification-side definitions *)

(** The five canonical status keys. *)
Definition CANONICAL : list string :=
  ["yes"; "no"; "maybe"; "first"; "second"]%string.

(** The expansion table of the specification, read off a raw value. *)
Definition expandTable (raw : value) : string * string :=
  match raw with
  | VStr s =>
      if String.eqb s "first" then ("no", "yes")
      else if String.eqb s "second" then ("yes", "no")
      else if String.eqb s "yes" then ("yes", "yes")
      else if String.eqb s "no" then ("no", "no")
      else ("maybe", "maybe")
  | _ => ("maybe", "maybe")
  end%string.

(** The raw status of group [gkey] at hour slot [hourIndex] in [today]:
    [undefined] when the group or the hour is missing. *)
Definition rawStatus (today : value) (gkey : string) (hourIndex : Z) : value :=
  get_opt (get_opt today gkey) (String_of_number hourIndex).

(** The expanded status of a group at the half-hour point with coordinate
    [i] (in half-hours): the first or second half of hour slot
    [i / 2 + 1]. *)
Definition expandedStatus (today : value) (gkey : string) (i : Z) : string :=
  let halves := expandHourToHalves (rawStatus today gkey (i `div` 2 + 1)) in
  if i `mod` 2 =? 0 then halves.1 else halves.2.

(** The interval [ab] covers the half-hour slot that starts at [x]. *)
Definition covers (x : Z) (ab : Z * Z) : bool :=
  (ab.1 <=? x) && (x <? ab.2).

Definition covered (x : Z) (l : list (Z * Z)) : bool :=
  existsb (covers x) l.

(** The end of a run whose remaining points are [rest]: the [t] of the
    first point where the predicate no longer holds, else the end of the
    timeline. *)
Definition runEnd (on : row → bool) (rest : list row) : Z :=
  match List.find (fun r => negb (on r)) rest with
  | Some r => t r
  | None => hours 24
  end.

(** The runs of a predicate, as the specification words them: a run opens
    at each point where the predicate holds while it did not hold at the
    preceding point ([prev] tells whether it did), and ends at [runEnd]. *)
Fixpoint specRuns (on : row → bool) (prev : bool) (rows : list row)
  : list (Z * Z) :=
  match rows with
  | [] => []
  | r :: rest =>
      (if on r && negb prev then [(t r, runEnd on rest)] else [])
        ++ specRuns on (on r) rest
  end.

(** Extraction as specified: the runs of positive duration. *)
Definition specIntervals (on : row → bool) (rows : list row)
  : list (Z * Z) :=
  List.filter (fun ab => ab.1 <? ab.2) (specRuns on false rows).

(** The scanning loop in structural form: [startT] is the pending start. *)
Fixpoint scan (on : row → bool) (startT : option Z) (rows : list row)
  : list (Z * Z) :=
  match rows, startT with
  | [], None => []
  | [], Some s => [(s, hours 24)]
  | r :: rest, None =>
      if on r then scan on (Some (t r)) rest else scan on None rest
  | r :: rest, Some s =>
      if on r then scan on (Some s) rest
      else (s, t r) :: scan on None rest
  end.

(** The predicate becomes true at index [i] of [rows]: it holds there and
    [i] is the first index or the predicate does not hold just before. *)
Definition becomesTrue (on : row → bool) (rows : list row) (i : nat) : Prop :=
  (∃ r, rows !! i = Some r ∧ on r = true) ∧
  match i with
  | O => True
  | S j => ∃ p, rows !! j = Some p ∧ on p = false
  end.

(** The interval still open when the loop ends, closed at 24. *)
Definition pendingInterval (startT : option Z) : list (Z * Z) :=
  match startT with
  | Some s => [(s, hours 24)]
  | None => []
  end.

(** A timeline whose points lie strictly above [lo], in strictly
    ascending order, before the end of the day. *)
Fixpoint ascending (lo : Z) (rows : list row) : Prop :=
  match rows with
  | [] => True
  | r :: rest => lo < t r < hours 24 ∧ ascending (t r) rest
  end.

(** The first interval ends strictly before the second begins. *)
Definition separated (x y : Z * Z) : Prop := x.2 < y.1.

(** Well-formed interval lists: every interval has positive duration and
    lies within the day, and any two intervals are separated by a gap, in
    list order.  Hence the list is sorted, its intervals are pairwise
    disjoint, and no two of them touch. *)
Definition wfIntervals (l : list (Z * Z)) : Prop :=
  Forall (fun ab => 0 ≤ ab.1 ∧ ab.1 < ab.2 ∧ ab.2 ≤ hours 24) l ∧
  StronglySorted separated l.

(** The tracked signals of two consecutive points differ. *)
Definition differs (prev curr : row) : Prop :=
  medicKey prev ≠ medicKey curr ∨
  reserveKey prev ≠ reserveKey curr ∨
  overlapNo prev ≠ overlapNo curr.

(** What the tick computation reads of a row. *)
Definition tracked (r : row) : Z * string * string * bool :=
  (t r, medicKey r, reserveKey r, overlapNo r).

(** A timeline for the round-trip law: the point at [x] carries the
    overlap flag telling whether [x] is covered by [intervals]. *)
Definition flattenPoint (intervals : list (Z * Z)) (x : Z) : row :=
  {| t := x; rangeLabel := formatHalfRange x;
     homeKey := "maybe"; medicKey := "maybe"; reserveKey := "maybe";
     home := 1; medic := 1; reserve := 1;
     overlapNo := covered x intervals |}.

Definition flatten (intervals : list (Z * Z)) : list row :=
  map (flattenPoint intervals) (seqZ 0 48).

(** * Further code of the dashboard *)

(** ** The remaining helpers of [utils/outage] *)

(** [c] is one of the characters matched by [\d]. *)
Definition isDigit (c : ascii) : bool :=
  (48 <=? nat_of_ascii c)%nat && (nat_of_ascii c <=? 57)%nat.

Definition digitValue (c : ascii) : Z := Z.of_nat (nat_of_ascii c) - 48.

(** The greedy group [(\d+)] read from the start of [s], as a number:
    [seen] tells whether a digit was read already and [acc] is the value
    read so far; no digit at all is a failed match. *)
Fixpoint matchDigits (seen : bool) (acc : Z) (s : string) : option Z :=
  match s with
  | String c rest =>
      if isDigit c then matchDigits true (10 * acc + digitValue c) rest
      else if seen then Some acc else None
  | EmptyString => if seen then Some acc else None
  end.

(** [getGroupNumber]: the match of [/^GPV(\d+)/], [None] for [null]. *)
Definition getGroupNumber (groupKey : string) : option Z :=
  match groupKey with
  | String "G" (String "P" (String "V" rest)) => matchDigits false 0 rest
  | _ => None
  end.


(** [getStatusText], for a string [statusKey]. *)
Definition getStatusText (data : value) (statusKey : string) : value :=
  nullish_or
    (get_opt (get_opt (get_opt data "preset") "time_type") statusKey)
    (VStr statusKey).

Definition getEffectiveStatus (statusKey : value) (minutes : Z) : value :=
  let key := normalizeStatusKey statusKey in
  if is_str key "first" then
    (if minutes <? 30 then VStr "no" else VStr "yes")
  else if is_str key "second" then
    (if minutes <? 30 then VStr "yes" else VStr "no")
  else key.



(** [getCurrentSlotStatusKey]; [nowHours] is [now.getHours()].  The
    result is [null] or a status key. *)
Definition getCurrentSlotStatusKey
    (data : value) (groupKey : string) (nowHours : Z) : option value :=
  let today := getTodayData data in
  if negb (truthy today) then Some VNull
  else
    group ← get_prop today groupKey;
    if negb (truthy group) then Some VNull
    else
      let hour := nowHours in
      let slot := Z.min 24 (Z.max 1 (hour + 1)) in
      normalizeStatusKey <$> get_prop group (String_of_number slot).




(** ** The remaining derivations of the dashboard component *)


(** The time extent [[r.t, r.t + 0.5]] of the shaded areas drawn by
    [renderChart], one for each row with [overlapNo] (the [x1], [x2] of the
    horizontal layout, the [y1], [y2] of the vertical one). *)
Definition overlapAreas (chartData : list row) : list (Z * Z) :=
  map (fun r => (t r, t r + half_hour))
    (List.filter (fun r => overlapNo r) chartData).

(** ** Specification-side definitions for the further code *)


(** The number of elements of [l] satisfying [f]. *)
Definition countIf {A : Type} (f : A → bool) (l : list A) : Z :=
  Z.of_nat (length (List.filter f l)).

(** The total duration of a list of intervals, in half-hours. *)
Definition totalDuration (l : list (Z * Z)) : Z :=
  fold_right (fun ab acc => (ab.2 - ab.1) + acc) 0 l.


(** ** Sample snapshots *)

(** A group schedule given by its listed hours; the other hours are
    missing. *)
Definition sampleSchedule (l : list (Z * string)) : value :=
  VObj (list_to_map (map (fun p => (String_of_number p.1, VStr p.2)) l)).

Definition sampleMedic : value :=
  sampleSchedule [(3, "no"); (4, "no"); (5, "no"); (11, "first")]%string.

Definition sampleReserve : value :=
  sampleSchedule [(11, "no"); (24, "second")]%string.

Definition sampleToday (homeSchedule : value) : value :=
  VObj (<[GROUP_HOME := homeSchedule]>
          (<[GROUP_MEDIC := sampleMedic]>
             (<[GROUP_RESERVE := sampleReserve]> ∅))).

(** A payload whose [fact.today] points at [today] in [fact.data]. *)
Definition snapshotOf (today : value) : value :=
  VObj {[ "fact"%string :=
            VObj (<["today"%string := VNum 1762466400]>
                    {[ "data"%string :=
                         VObj {[ "1762466400"%string := today ]} ]}) ]}.

Definition sampleSnapshot : value :=
  snapshotOf (sampleToday (sampleSchedule [(5, "first")]%string)).

Definition sampleSnapshot' : value :=
  snapshotOf (sampleToday (sampleSchedule [(1, "no"); (9, "second")]%string)).

(** A payload without a [today] pointer. *)
Definition sampleNoToday : value :=
  VObj {[ "fact"%string := VObj {[ "data"%string := VObj ∅ ]} ]}.

(** * Normalisation and expansion *)

Ltac case_strings :=
  repeat match goal with
         | |- context [String.eqb ?a ?b] =>
             is_var a; destruct (String.eqb_spec a b); subst; cbn
         end.

Lemma normalizeStatusKey_str (s : string) :
  normalizeStatusKey (VStr s) =
  VStr (if existsb (String.eqb s) CANONICAL then s else "maybe").
Proof.
  unfold normalizeStatusKey, includes, STATUS_ORDER, CANONICAL; simpl.
  case_strings; reflexivity.
Qed.

Lemma normalizeStatusKey_not_str (v : value) :
  (∀ s, v ≠ VStr s) → normalizeStatusKey v = VStr "maybe".
Proof.
  intros Hv. unfold normalizeStatusKey.
  destruct v; simpl; try reflexivity.
  - by destruct b.
  - by destruct (n =? 0).
  - by destruct (Hv s).
Qed.

Lemma existsb_canonical (s : string) :
  existsb (String.eqb s) CANONICAL = true ↔ s ∈ CANONICAL.
Proof.
  rewrite existsb_exists. split.
  - intros (x & Hx & ->%String.eqb_eq). by apply list_elem_of_In.
  - intros Hs. exists s. split; [by apply list_elem_of_In|apply String.eqb_refl].
Qed.

Lemma normalizeStatusKey_falsy (v : value) :
  truthy v = false → normalizeStatusKey v = VStr "maybe".
Proof. intros Hv. unfold normalizeStatusKey. by rewrite Hv. Qed.

Lemma expandHourToHalves_table (raw : value) :
  expandHourToHalves raw = expandTable raw.
Proof.
  destruct raw as [| |b|n|s|items|fields];
    try (unfold expandHourToHalves;
         rewrite normalizeStatusKey_not_str by (intros ?; discriminate);
         reflexivity).
  unfold expandHourToHalves. rewrite normalizeStatusKey_str.
  unfold CANONICAL, expandTable. simpl.
  case_strings; reflexivity.
Qed.

Lemma expandHourToHalves_other (raw : value) :
  (∀ s, s ∈ ["first"; "second"; "yes"; "no"]%string → raw ≠ VStr s) →
  expandHourToHalves raw = ("maybe", "maybe")%string.
Proof.
  intros Hraw. rewrite expandHourToHalves_table.
  destruct raw as [| |b|n|s|items|fields]; try reflexivity.
  unfold expandTable. case_strings; try reflexivity.
  all: exfalso; eapply Hraw; [|reflexivity];
    rewrite !elem_of_cons; auto.
Qed.

Lemma expandHourToHalves_range (raw : value) :
  (expandHourToHalves raw).1 ∈ ["yes"; "no"; "maybe"]%string ∧
  (expandHourToHalves raw).2 ∈ ["yes"; "no"; "maybe"]%string.
Proof.
  rewrite expandHourToHalves_table.
  destruct raw as [| |b|n|s|items|fields]; simpl;
    try (by split; rewrite !elem_of_cons; auto).
  case_strings; split; rewrite !elem_of_cons; auto.
Qed.

Lemma isNoAtHour_str (s : string) :
  isNoAtHour (VStr s) = String.eqb s "no".
Proof.
  unfold isNoAtHour. rewrite normalizeStatusKey_str.
  unfold CANONICAL. cbn. case_strings; reflexivity.
Qed.

Lemma isOutageKey_str (s : string) :
  isOutageKey (VStr s) =
  String.eqb s "no" || String.eqb s "first" || String.eqb s "second".
Proof.
  unfold isOutageKey. rewrite normalizeStatusKey_str.
  unfold CANONICAL. cbn. case_strings; reflexivity.
Qed.

Lemma isOutageKey_not_str (v : value) :
  (∀ s, v ≠ VStr s) → isOutageKey v = false.
Proof.
  intros Hv. unfold isOutageKey. by rewrite normalizeStatusKey_not_str.
Qed.

(** An hour has an outage half exactly when its raw key is an outage key. *)
Lemma isOutageKey_halves (raw : value) :
  isOutageKey (VStr (expandHourToHalves raw).1)
  || isOutageKey (VStr (expandHourToHalves raw).2) = isOutageKey raw.
Proof.
  rewrite expandHourToHalves_table.
  destruct raw as [| |b|n|s|items|fields];
    try (match goal with
         | |- _ = isOutageKey ?v =>
             rewrite (isOutageKey_not_str v) by (intros ?; discriminate)
         end; reflexivity).
  rewrite !isOutageKey_str. unfold expandTable.
  case_strings; reflexivity.
Qed.

Lemma isOutageKey_normalized (raw : value) :
  isOutageKey raw = true ↔
  normalizeStatusKey raw ∈ [VStr "no"; VStr "first"; VStr "second"].
Proof.
  unfold isOutageKey. rewrite !elem_of_cons, elem_of_nil.
  destruct (normalizeStatusKey raw) as [| |b|n|s|items|fields]; simpl;
    try (split; [discriminate|intros [|[|[|[]]]]; discriminate]).
  rewrite !orb_true_iff, !String.eqb_eq. split.
  - intros [[->| ->]| ->]; auto.
  - intros [|[|[|[]]]]; simplify_eq; auto.
Qed.

(** C2. For every raw hour status value, [expandHourToHalves] returns the
    pair given by the expansion table: ['first'] gives [['no','yes']],
    ['second'] gives [['yes','no']], ['yes'] gives [['yes','yes']], ['no']
    gives [['no','no']], and anything else gives [['maybe','maybe']].
    Consequently both halves are among ['yes'], ['no'], ['maybe'], and
    neither is ['first'] or ['second']. *)
Theorem expandHourToHalves_spec (raw : value) :
  expandHourToHalves raw = expandTable raw ∧
  expandHourToHalves (VStr "first") = ("no", "yes")%string ∧
  expandHourToHalves (VStr "second") = ("yes", "no")%string ∧
  expandHourToHalves (VStr "yes") = ("yes", "yes")%string ∧
  expandHourToHalves (VStr "no") = ("no", "no")%string ∧
  ((∀ s, s ∈ ["first"; "second"; "yes"; "no"]%string → raw ≠ VStr s) →
   expandHourToHalves raw = ("maybe", "maybe")%string) ∧
  (∀ half, half = (expandHourToHalves raw).1 ∨
           half = (expandHourToHalves raw).2 →
     half ∈ ["yes"; "no"; "maybe"]%string ∧
     half ≠ "first"%string ∧ half ≠ "second"%string).
Proof.
  split; [apply expandHourToHalves_table|].
  do 4 (split; [reflexivity|]).
  split; [apply expandHourToHalves_other|].
  intros half Hhalf.
  destruct (expandHourToHalves_range raw) as [H1 H2].
  assert (Hin : half ∈ ["yes"; "no"; "maybe"]%string)
    by (destruct Hhalf; by subst).
  split; [exact Hin|].
  rewrite !elem_of_cons, elem_of_nil in Hin.
  destruct Hin as [->|[->|[->|[]]]]; split; discriminate.
Qed.

Lemma expandHourToHalves_spec_witness :
  expandHourToHalves (VNum 7) = ("maybe", "maybe")%string.
Proof.
  apply (proj1 (proj2 (proj2 (proj2 (proj2 (proj2
           (expandHourToHalves_spec (VNum 7)))))))).
  intros s _. discriminate.
Defined.

(** C7. [normalizeStatusKey] is total: every input maps to one of the five
    canonical keys, and every input that is not one of the five canonical
    strings, in particular a falsy one ([undefined], [null], [false], [0],
    the empty string), is sent to ['maybe']. *)
Theorem normalizeStatusKey_total (raw : value) :
  (∃ s, normalizeStatusKey raw = VStr s ∧ s ∈ CANONICAL) ∧
  ((∀ s, s ∈ CANONICAL → raw ≠ VStr s) →
   normalizeStatusKey raw = VStr "maybe") ∧
  (truthy raw = false → normalizeStatusKey raw = VStr "maybe").
Proof.
  assert (Hmaybe : "maybe"%string ∈ CANONICAL)
    by (unfold CANONICAL; rewrite !elem_of_cons; auto).
  split; [|split].
  - destruct raw as [| |b|n|s|items|fields];
      try (exists "maybe"%string; split; [|exact Hmaybe];
           apply normalizeStatusKey_not_str; intros ?; discriminate).
    rewrite normalizeStatusKey_str.
    destruct (existsb _ _) eqn:Hs; eexists; split; try reflexivity.
    + by apply existsb_canonical.
    + exact Hmaybe.
  - intros Hraw.
    destruct raw as [| |b|n|s|items|fields];
      try (apply normalizeStatusKey_not_str; intros ?; discriminate).
    rewrite normalizeStatusKey_str.
    destruct (existsb _ _) eqn:Hs; [|reflexivity].
    apply existsb_canonical in Hs. by destruct (Hraw s Hs).
  - apply normalizeStatusKey_falsy.
Qed.

Lemma normalizeStatusKey_total_witness :
  normalizeStatusKey (VStr "unknown") = VStr "maybe" ∧
  normalizeStatusKey VNull = VStr "maybe".
Proof.
  split.
  - apply (proj1 (proj2 (normalizeStatusKey_total (VStr "unknown")))).
    intros s Hs Heq. injection Heq as <-.
    revert Hs. unfold CANONICAL. rewrite !elem_of_cons, elem_of_nil.
    intros [|[|[|[|[|[]]]]]]; discriminate.
  - apply (proj2 (proj2 (normalizeStatusKey_total VNull))). reflexivity.
Defined.

(** * Interval extraction *)

Section Extraction.
Variable on : row → bool.

Lemma scanStep_loop (rows : list row) :
  ∀ intervals startT,
    let st := fold_left (fun st r => scanStep (on r) (t r) st) rows
                (intervals, startT) in
    st.1 ++ pendingInterval st.2 = intervals ++ scan on startT rows.
Proof.
  induction rows as [|r rows IH]; intros intervals startT; simpl.
  - destruct startT; simpl; by rewrite ?app_nil_r.
  - destruct startT as [s|], (on r) eqn:Hon; simpl; rewrite IH;
      by rewrite <- ?app_assoc.
Qed.

Lemma scanFinish_loop (rows : list row) :
  scanFinish (fold_left (fun st r => scanStep (on r) (t r) st) rows
                ([], None)) =
  List.filter (fun ab => ab.1 <? ab.2) (scan on None rows).
Proof.
  pose proof (scanStep_loop rows [] None) as Hloop. simpl in Hloop.
  destruct (fold_left _ rows _) as [intervals startT]. simpl in *.
  rewrite <- Hloop. by destruct startT; simpl; rewrite ?app_nil_r.
Qed.

(** The loop computes the runs of the specification. *)
Lemma scan_specRuns (rows : list row) :
  scan on None rows = specRuns on false rows ∧
  ∀ s, scan on (Some s) rows = (s, runEnd on rows) :: specRuns on true rows.
Proof.
  induction rows as [|r rows [IHn IHs]]; simpl.
  - split; [reflexivity|]. intros s. reflexivity.
  - unfold runEnd in *. simpl. destruct (on r) eqn:Hon; simpl; split.
    + apply IHs.
    + intros s. apply IHs.
    + apply IHn.
    + intros s. by rewrite IHn.
Qed.

(** On an ascending timeline the loop yields positive, separated
    intervals: from no pending start they all begin above the lower
    bound; from a pending start [s] at or below it, the first interval
    begins at [s] and ends above the bound. *)
Lemma scan_shape (rows : list row) :
  ∀ lo, ascending lo rows →
    (Forall (fun ab => lo < ab.1 ∧ ab.1 < ab.2 ∧ ab.2 ≤ hours 24)
       (scan on None rows) ∧
     StronglySorted separated (scan on None rows)) ∧
    (∀ s, s ≤ lo → lo < hours 24 →
       ∃ e rest, scan on (Some s) rows = (s, e) :: rest ∧
         lo < e ∧ e ≤ hours 24 ∧
         Forall (fun ab => e < ab.1 ∧ ab.1 < ab.2 ∧ ab.2 ≤ hours 24) rest ∧
         StronglySorted separated rest).
Proof.
  induction rows as [|r rows IH]; intros lo Hasc.
  - split; [split; constructor|].
    intros s Hs Hlo. exists (hours 24), []. simpl.
    repeat split; try constructor; lia.
  - destruct Hasc as [[Hlo Hhi] Hasc].
    destruct (IH _ Hasc) as [[IHpos IHsep] IHsome]. simpl.
    destruct (on r) eqn:Hon.
    + destruct (IHsome (t r)) as (e & rest & Heq & He & He24 & Hrest & Hsep);
        [lia|lia|].
      split.
      * rewrite Heq. split.
        -- constructor; [simpl; lia|].
           eapply Forall_impl; [exact Hrest|]. simpl. intros; lia.
        -- constructor; [exact Hsep|].
           eapply Forall_impl; [exact Hrest|].
           unfold separated. simpl. intros; lia.
      * intros s Hs _.
        destruct (IHsome s) as (e' & rest' & Heq' & ? & ? & ? & ?);
          [lia|lia|].
        exists e', rest'. repeat split; try done; lia.
    + split.
      * split; [|exact IHsep].
        eapply Forall_impl; [exact IHpos|]. simpl. intros; lia.
      * intros s Hs _. exists (t r), (scan on None rows).
        repeat split; try done; lia.
Qed.

Lemma scan_wf (rows : list row) (lo : Z) :
  -1 ≤ lo → ascending lo rows → wfIntervals (scan on None rows).
Proof.
  intros Hlo Hasc. destruct (scan_shape rows lo Hasc) as [[Hpos Hsep] _].
  split; [|exact Hsep].
  eapply Forall_impl; [exact Hpos|]. simpl. intros; lia.
Qed.

Lemma scan_positive (rows : list row) (lo : Z) :
  ascending lo rows →
  List.filter (fun ab => ab.1 <? ab.2) (scan on None rows) =
  scan on None rows.
Proof.
  intros Hasc. destruct (scan_shape rows lo Hasc) as [[Hpos _] _].
  induction Hpos as [|ab l Hab _ IH]; simpl; [reflexivity|].
  rewrite (proj2 (Z.ltb_lt _ _)) by lia. by rewrite IH.
Qed.

Lemma ascending_elem (rows : list row) :
  ∀ lo r, ascending lo rows → r ∈ rows → lo < t r < hours 24.
Proof.
  induction rows as [|r0 rows IH]; intros lo r Hasc Hr.
  - by apply elem_of_nil in Hr.
  - destruct Hasc as [Hr0 Hasc].
    apply elem_of_cons in Hr as [->|Hr]; [exact Hr0|].
    specialize (IH _ _ Hasc Hr). lia.
Qed.

Lemma covered_above (x : Z) (l : list (Z * Z)) :
  Forall (fun ab => x < ab.1) l → covered x l = false.
Proof.
  induction 1 as [|ab l Hab _ IH]; simpl; [reflexivity|].
  unfold covers at 1. rewrite (proj2 (Z.leb_gt _ _)) by lia. exact IH.
Qed.

(** On an ascending timeline, the slot of a point is covered by an
    extracted interval exactly when the predicate holds at the point. *)
Lemma scan_covered (rows : list row) :
  ∀ lo, ascending lo rows →
    (∀ r, r ∈ rows → covered (t r) (scan on None rows) = on r) ∧
    (∀ s, s ≤ lo → ∀ r, r ∈ rows →
       covered (t r) (scan on (Some s) rows) = on r).
Proof.
  induction rows as [|r0 rows IH]; intros lo Hasc.
  - split; [intros r Hr|intros s _ r Hr]; by apply elem_of_nil in Hr.
  - destruct Hasc as [[Hlo Hhi] Hasc].
    destruct (IH _ Hasc) as [IHnone IHsome].
    destruct (scan_shape rows _ Hasc) as [[Hpos _] Hshape].
    assert (Habove : Forall (fun ab => t r0 < ab.1) (scan on None rows)).
    { eapply Forall_impl; [exact Hpos|]. simpl. intros; lia. }
    simpl. destruct (on r0) eqn:Hon.
    + assert (Hhead : ∀ s, s ≤ t r0 →
                covered (t r0) (scan on (Some s) rows) = true).
      { intros s Hs.
        destruct (Hshape s) as (e & rest & -> & He & _); [lia|lia|].
        simpl. unfold covers at 1. simpl.
        rewrite (proj2 (Z.leb_le _ _)), (proj2 (Z.ltb_lt _ _)) by lia.
        reflexivity. }
      split; [intros r Hr|intros s Hs r Hr];
        apply elem_of_cons in Hr as [->|Hr];
        rewrite ?Hon; try (apply Hhead; lia); apply IHsome; try done; lia.
    + split; [intros r Hr|intros s Hs r Hr];
        apply elem_of_cons in Hr as [->|Hr]; rewrite ?Hon.
      * by apply covered_above.
      * by apply IHnone.
      * simpl. unfold covers at 1. simpl.
        rewrite (proj2 (Z.ltb_ge _ _)) by lia.
        rewrite andb_false_r. simpl. by apply covered_above.
      * simpl. unfold covers at 1. simpl.
        pose proof (ascending_elem _ _ _ Hasc Hr).
        rewrite (proj2 (Z.ltb_ge _ _)) by lia.
        rewrite andb_false_r. simpl. by apply IHnone.
Qed.

(** The loop reads only the coordinate and the predicate of each point. *)
Lemma scan_ext (on' : row → bool) (rows : list row) :
  ∀ rows' startT,
    map (fun r => (t r, on r)) rows = map (fun r => (t r, on' r)) rows' →
    scan on startT rows = scan on' startT rows'.
Proof.
  induction rows as [|r rows IH]; intros [|r' rows'] startT Heq;
    try discriminate; [reflexivity|].
  simpl in Heq. injection Heq as Ht Hon Heq. simpl.
  rewrite Ht, Hon. destruct startT, (on' r'); by rewrite ?(IH rows').
Qed.
(** The runs, by position: one run for every index where the predicate
    becomes true, from the [t] of that point to the end of the run. *)
Lemma specRuns_elem (rows : list row) :
  ∀ prev ab,
    ab ∈ specRuns on prev rows ↔
    ∃ i r, rows !! i = Some r ∧ becomesTrue on rows i ∧
      (i = 0%nat → prev = false) ∧
      ab = (t r, runEnd on (drop (S i) rows)).
Proof.
  induction rows as [|r0 rows IH]; intros prev ab.
  - simpl. split; [by intros ?%elem_of_nil|].
    by intros (i & r & ? & _).
  - cbn [specRuns]. rewrite elem_of_app, IH. split.
    + intros [Hhead|(i & r & Hr & [Hon Hbefore] & Hprev & ->)].
      * destruct (on r0) eqn:Hon0, prev; simpl in Hhead;
          try by apply elem_of_nil in Hhead.
        apply list_elem_of_singleton in Hhead as ->.
        exists 0%nat, r0. repeat split; eauto.
      * exists (S i), r. split; [exact Hr|]. split; [|by split].
        split; [exact Hon|]. destruct i as [|i]; [|exact Hbefore].
        exists r0. split; [reflexivity|]. by apply Hprev.
    + intros (i & r & Hr & [Hon Hbefore] & Hprev & ->).
      destruct i as [|i].
      * left. simpl in Hr. injection Hr as ->.
        destruct Hon as (r' & Hr' & Hon). simpl in Hr'. injection Hr' as ->.
        rewrite Hon, Hprev by done. simpl. by left.
      * right. exists i, r. split; [exact Hr|]. split; [|split].
        -- split; [exact Hon|]. destruct i as [|i]; [done|exact Hbefore].
        -- intros ->. destruct Hbefore as (p & Hp & Hoff).
           simpl in Hp. by injection Hp as ->.
        -- reflexivity.
Qed.
End Extraction.

Lemma boolIntervals_scan (rows : list row) (pickBool : row → value) :
  boolIntervals rows pickBool =
  List.filter (fun ab => ab.1 <? ab.2)
    (scan (fun r => truthy (pickBool r)) None rows).
Proof.
  unfold boolIntervals. destruct rows as [|r rows]; [reflexivity|].
  change (length (r :: rows) =? 0)%nat with false. cbv iota.
  apply (scanFinish_loop (fun r => truthy (pickBool r))).
Qed.

Lemma noIntervals_scan (rows : list row) (pickKey : row → value) :
  noIntervals rows pickKey =
  List.filter (fun ab => ab.1 <? ab.2)
    (scan (fun r => isNoAtHour (pickKey r)) None rows).
Proof.
  unfold noIntervals. destruct rows as [|r rows]; [reflexivity|].
  change (length (r :: rows) =? 0)%nat with false. cbv iota.
  apply (scanFinish_loop (fun r => isNoAtHour (pickKey r))).
Qed.

Lemma specIntervals_elem (on : row → bool) (rows : list row) (ab : Z * Z) :
  ab ∈ specIntervals on rows ↔
  ab.1 < ab.2 ∧
  ∃ i r, rows !! i = Some r ∧ becomesTrue on rows i ∧
    ab = (t r, runEnd on (drop (S i) rows)).
Proof.
  unfold specIntervals.
  rewrite list_elem_of_In, filter_In, <- list_elem_of_In, Z.ltb_lt.
  rewrite specRuns_elem. split.
  - intros [(i & r & Hr & Hi & _ & Hab) Hpos]. eauto 6.
  - intros [Hpos (i & r & Hr & Hi & Hab)]. split; [|exact Hpos].
    exists i, r. split; [exact Hr|]. split; [exact Hi|]. by split.
Qed.

(** C1. Interval extraction, by either function and for every sequence of
    points (ascending or not) and every predicate, returns the runs of
    the specification: an interval opens at the [t] of each point where
    the predicate becomes true, is closed at the [t] of the first later
    point where it no longer holds, or at 24 if there is none, and only
    the intervals of strictly positive duration are emitted, each
    formatted as a range. *)
Theorem extraction_follows_spec
    (rows : list row) (pickKey pickBool : row → value) :
  noIntervals rows pickKey =
    specIntervals (fun r => isNoAtHour (pickKey r)) rows ∧
  getNoIntervalsFromRows rows pickKey =
    map formatInterval
      (specIntervals (fun r => isNoAtHour (pickKey r)) rows) ∧
  boolIntervals rows pickBool =
    specIntervals (fun r => truthy (pickBool r)) rows ∧
  getBoolIntervalsFromRows rows pickBool =
    map formatInterval
      (specIntervals (fun r => truthy (pickBool r)) rows) ∧
  (∀ ab, ab ∈ noIntervals rows pickKey ↔
     ab.1 < ab.2 ∧
     ∃ i r, rows !! i = Some r ∧
       becomesTrue (fun r => isNoAtHour (pickKey r)) rows i ∧
       ab = (t r, runEnd (fun r => isNoAtHour (pickKey r))
                    (drop (S i) rows))) ∧
  (∀ ab, ab ∈ boolIntervals rows pickBool ↔
     ab.1 < ab.2 ∧
     ∃ i r, rows !! i = Some r ∧
       becomesTrue (fun r => truthy (pickBool r)) rows i ∧
       ab = (t r, runEnd (fun r => truthy (pickBool r))
                    (drop (S i) rows))).
Proof.
  assert (Hno : noIntervals rows pickKey =
                specIntervals (fun r => isNoAtHour (pickKey r)) rows).
  { rewrite noIntervals_scan. unfold specIntervals.
    by rewrite (proj1 (scan_specRuns _ rows)). }
  assert (Hbool : boolIntervals rows pickBool =
                  specIntervals (fun r => truthy (pickBool r)) rows).
  { rewrite boolIntervals_scan. unfold specIntervals.
    by rewrite (proj1 (scan_specRuns _ rows)). }
  unfold getNoIntervalsFromRows, getBoolIntervalsFromRows.
  rewrite Hno, Hbool. do 4 (split; [reflexivity|]).
  split; intros ab; apply specIntervals_elem.
Qed.

(** * The half-hour timeline *)

Lemma get_prop_truthy (v : value) (k : string) :
  truthy v = true → get_prop v k = Some (get_opt v k).
Proof. by destruct v. Qed.

Lemma get_opt_nullish_or (v : value) (k : string) :
  get_opt (nullish_or v VNull) k = get_opt v k.
Proof. by destruct v. Qed.

Lemma fold_left_push {A B : Type} (f : B → list A) (l : list B) :
  ∀ acc, fold_left (fun rows x => rows ++ f x) l acc = acc ++ (l ≫= f).
Proof.
  induction l as [|x l IH]; intros acc.
  - simpl. by rewrite app_nil_r.
  - change ((x :: l) ≫= f) with (f x ++ (l ≫= f)).
    simpl fold_left. by rewrite IH, app_assoc.
Qed.

(** The rows of a day, once [today] is known to be present. *)
Lemma chartData_truthy (today : value) :
  truthy today = true →
  chartData today =
  Some (seqZ 1 24 ≫=
          chartRowsOfHour (nullish_or (get_opt today GROUP_HOME) VNull)
            (nullish_or (get_opt today GROUP_MEDIC) VNull)
            (nullish_or (get_opt today GROUP_RESERVE) VNull)).
Proof.
  intros Htoday. unfold chartData. rewrite Htoday. simpl negb. cbv iota.
  rewrite !get_prop_truthy by done.
  cbv [fmap option_fmap option_map mbind option_bind].
  f_equal. rewrite fold_left_push. apply app_nil_l.
Qed.

Lemma chartData_falsy (today : value) :
  truthy today = false → chartData today = Some [].
Proof. intros Htoday. unfold chartData. by rewrite Htoday. Qed.

Lemma chartRowsOfHour_times (home medic reserve : value) (hourIndex : Z) :
  map t (chartRowsOfHour home medic reserve hourIndex) =
  [hours (hourIndex - 1); hours (hourIndex - 1) + half_hour].
Proof.
  unfold chartRowsOfHour.
  by destruct (expandHourToHalves _), (expandHourToHalves _),
    (expandHourToHalves _).
Qed.

(** The four tracked fields of the rows of an hour do not depend on the
    home group. *)
Lemma chartRowsOfHour_tracked
    (home home' medic reserve : value) (hourIndex : Z) :
  map tracked (chartRowsOfHour home medic reserve hourIndex) =
  map tracked (chartRowsOfHour home' medic reserve hourIndex).
Proof.
  unfold chartRowsOfHour.
  by destruct (expandHourToHalves (get_opt home _)),
    (expandHourToHalves (get_opt home' _)),
    (expandHourToHalves (get_opt medic _)),
    (expandHourToHalves (get_opt reserve _)).
Qed.

Lemma chartRowsOfHour_elem
    (today : value) (hourIndex : Z) (r : row) :
  r ∈ chartRowsOfHour (nullish_or (get_opt today GROUP_HOME) VNull)
        (nullish_or (get_opt today GROUP_MEDIC) VNull)
        (nullish_or (get_opt today GROUP_RESERVE) VNull) hourIndex →
  (t r = hours (hourIndex - 1) ∨ t r = hours (hourIndex - 1) + half_hour) ∧
  homeKey r = expandedStatus today GROUP_HOME (t r) ∧
  medicKey r = expandedStatus today GROUP_MEDIC (t r) ∧
  reserveKey r = expandedStatus today GROUP_RESERVE (t r) ∧
  overlapNo r =
    isNoAtHour (VStr (medicKey r)) && isNoAtHour (VStr (reserveKey r)).
Proof.
  unfold chartRowsOfHour, expandedStatus, rawStatus.
  rewrite !get_opt_nullish_or.
  destruct (expandHourToHalves (get_opt (get_opt today GROUP_HOME) _))
    as [homeA homeB] eqn:Hhome,
    (expandHourToHalves (get_opt (get_opt today GROUP_MEDIC) _))
    as [medicA medicB] eqn:Hmedic,
    (expandHourToHalves (get_opt (get_opt today GROUP_RESERVE) _))
    as [reserveA reserveB] eqn:Hreserve.
  rewrite !elem_of_cons, elem_of_nil. unfold hours, half_hour.
  intros [->|[->|[]]]; simpl.
  - replace ((2 * (hourIndex - 1)) `div` 2 + 1) with hourIndex
      by (Z.div_mod_to_equations; lia).
    replace ((2 * (hourIndex - 1)) `mod` 2) with 0
      by (Z.div_mod_to_equations; lia).
    rewrite Hhome, Hmedic, Hreserve. simpl. auto.
  - replace ((2 * (hourIndex - 1) + 1) `div` 2 + 1) with hourIndex
      by (Z.div_mod_to_equations; lia).
    replace ((2 * (hourIndex - 1) + 1) `mod` 2) with 1
      by (Z.div_mod_to_equations; lia).
    rewrite Hhome, Hmedic, Hreserve. simpl. auto.
Qed.

Lemma map_bind {A B C : Type} (g : B → C) (f : A → list B) (l : list A) :
  map g (l ≫= f) = l ≫= (fun x => map g (f x)).
Proof.
  induction l as [|x l IH]; [reflexivity|].
  change ((x :: l) ≫= f) with (f x ++ (l ≫= f)).
  rewrite map_app, IH. reflexivity.
Qed.

Lemma bind_ext {A B : Type} (f g : A → list B) (l : list A) :
  (∀ x, f x = g x) → l ≫= f = l ≫= g.
Proof.
  intros Hfg. induction l as [|x l IH]; [reflexivity|].
  change ((x :: l) ≫= f) with (f x ++ (l ≫= f)).
  rewrite Hfg, IH. reflexivity.
Qed.

(** When [today] is present the timeline is the 48 half-hour points of
    the day, each carrying the expanded statuses of the three groups at
    its coordinate and the overlap flag. *)
Lemma chartData_rows (today : value) :
  truthy today = true →
  ∃ rows, chartData today = Some rows ∧
    map t rows = seqZ 0 48 ∧
    ∀ r, r ∈ rows →
      homeKey r = expandedStatus today GROUP_HOME (t r) ∧
      medicKey r = expandedStatus today GROUP_MEDIC (t r) ∧
      reserveKey r = expandedStatus today GROUP_RESERVE (t r) ∧
      overlapNo r =
        isNoAtHour (VStr (medicKey r)) && isNoAtHour (VStr (reserveKey r)).
Proof.
  intros Htoday. eexists. split; [by apply chartData_truthy|]. split.
  - rewrite map_bind.
    rewrite (bind_ext _ (fun h => [hours (h - 1); hours (h - 1) + half_hour]))
      by (intros; apply chartRowsOfHour_times).
    reflexivity.
  - intros r (h & Hr & _)%list_elem_of_bind.
    by apply chartRowsOfHour_elem in Hr as (_ & ? & ? & ? & ?).
Qed.

Lemma seqZ_ascending (rows : list row) :
  ∀ a n, map t rows = seqZ a n → a + n ≤ hours 24 → ascending (a - 1) rows.
Proof.
  induction rows as [|r rows IH]; intros a n Heq Hn; [done|].
  destruct (decide (0 < n)) as [Hpos|Hneg].
  - rewrite seqZ_cons in Heq by done. simpl in Heq.
    injection Heq as Ht Heq. simpl. split; [lia|].
    replace (t r) with (Z.succ a - 1) by lia.
    eapply IH; [exact Heq|lia].
  - rewrite seqZ_nil in Heq by lia. discriminate.
Qed.

Lemma chartData_ascending (rows : list row) :
  map t rows = seqZ 0 48 → ascending (-1) rows.
Proof. intros Heq. by apply (seqZ_ascending rows 0 48). Qed.

Lemma covered_iff (x : Z) (l : list (Z * Z)) :
  covered x l = true ↔ ∃ ab, ab ∈ l ∧ ab.1 ≤ x < ab.2.
Proof.
  unfold covered, covers. rewrite existsb_exists.
  setoid_rewrite andb_true_iff. setoid_rewrite Z.leb_le.
  setoid_rewrite Z.ltb_lt. setoid_rewrite list_elem_of_In.
  split; intros (ab & ? & ? & ?); exists ab; auto.
Qed.

Lemma boolIntervals_ascending (rows : list row) (pickBool : row → value) :
  ascending (-1) rows →
  boolIntervals rows pickBool = scan (fun r => truthy (pickBool r)) None rows.
Proof.
  intros Hasc. rewrite boolIntervals_scan. by eapply scan_positive.
Qed.

Lemma noIntervals_ascending (rows : list row) (pickKey : row → value) :
  ascending (-1) rows →
  noIntervals rows pickKey = scan (fun r => isNoAtHour (pickKey r)) None rows.
Proof.
  intros Hasc. rewrite noIntervals_scan. by eapply scan_positive.
Qed.

Lemma boolIntervals_wf (rows : list row) (pickBool : row → value) :
  ascending (-1) rows → wfIntervals (boolIntervals rows pickBool).
Proof.
  intros Hasc. rewrite boolIntervals_ascending by done.
  by eapply scan_wf.
Qed.

Lemma noIntervals_wf (rows : list row) (pickKey : row → value) :
  ascending (-1) rows → wfIntervals (noIntervals rows pickKey).
Proof.
  intros Hasc. rewrite noIntervals_ascending by done.
  by eapply scan_wf.
Qed.

Lemma boolIntervals_covered
    (rows : list row) (pickBool : row → value) (r : row) :
  ascending (-1) rows → r ∈ rows →
  covered (t r) (boolIntervals rows pickBool) = truthy (pickBool r).
Proof.
  intros Hasc Hr. rewrite boolIntervals_ascending by done.
  by apply (proj1 (scan_covered (fun r => truthy (pickBool r)) rows _ Hasc)).
Qed.

Lemma outageLines_intervals (rows : list row) :
  outageLines rows =
  {| lines_home := map formatInterval (noIntervals rows pickHome);
     lines_medic := map formatInterval (noIntervals rows pickMedic);
     lines_reserve := map formatInterval (noIntervals rows pickReserve);
     lines_overlap := map formatInterval (boolIntervals rows pickOverlap) |}.
Proof. by destruct rows. Qed.

Lemma both_no_iff (r : row) :
  isNoAtHour (VStr (medicKey r)) && isNoAtHour (VStr (reserveKey r)) = true ↔
  medicKey r = "no"%string ∧ reserveKey r = "no"%string.
Proof.
  by rewrite !isNoAtHour_str, andb_true_iff, !String.eqb_eq.
Qed.

(** C3. For every snapshot with today data, the timeline has the 48
    half-hour points of the day, and at each of them the overlap flag is
    true exactly when the expanded half-hour statuses of the medical and
    of the reserve group are both ['no']; the slot of a point is covered
    by an interval of the overlap list exactly in that case, so that no
    overlap interval covers a slot where only one of the two groups is
    ['no']. *)
Theorem overlap_iff_both_no (data : value) :
  truthy (getTodayData data) = true →
  ∃ rows, chartData (getTodayData data) = Some rows ∧
    map t rows = seqZ 0 48 ∧
    lines_overlap (outageLines rows) =
      map formatInterval (boolIntervals rows pickOverlap) ∧
    ∀ r, r ∈ rows →
      let medicStatus := expandedStatus (getTodayData data) GROUP_MEDIC (t r) in
      let reserveStatus :=
        expandedStatus (getTodayData data) GROUP_RESERVE (t r) in
      medicKey r = medicStatus ∧ reserveKey r = reserveStatus ∧
      (overlapNo r = true ↔
       medicStatus = "no"%string ∧ reserveStatus = "no"%string) ∧
      ((∃ ab, ab ∈ boolIntervals rows pickOverlap ∧ ab.1 ≤ t r < ab.2) ↔
       medicStatus = "no"%string ∧ reserveStatus = "no"%string).
Proof.
  intros Htoday.
  destruct (chartData_rows _ Htoday) as (rows & Hrows & Htimes & Hkeys).
  exists rows. split; [exact Hrows|]. split; [exact Htimes|].
  split; [by rewrite outageLines_intervals|].
  intros r Hr. destruct (Hkeys r Hr) as (_ & Hmedic & Hreserve & Hoverlap).
  simpl. rewrite <- Hmedic, <- Hreserve.
  split; [reflexivity|]. split; [reflexivity|].
  split.
  - by rewrite Hoverlap, both_no_iff.
  - rewrite <- covered_iff, boolIntervals_covered
      by (try apply chartData_ascending; done).
    simpl. by rewrite Hoverlap, both_no_iff.
Qed.

(** C6. Every interval list returned for a day (the ['no'] intervals of
    the three groups and the overlap intervals) is the formatting of a
    list of intervals each of which has an end strictly greater than its
    start, and any two of which, in list order, are separated by a gap:
    the list is sorted, its intervals do not overlap, and no two
    neighbours could be merged. *)
Theorem outage_intervals_wf (data : value) :
  ∃ rows, chartData (getTodayData data) = Some rows ∧
    outageLines rows =
      {| lines_home := map formatInterval (noIntervals rows pickHome);
         lines_medic := map formatInterval (noIntervals rows pickMedic);
         lines_reserve := map formatInterval (noIntervals rows pickReserve);
         lines_overlap :=
           map formatInterval (boolIntervals rows pickOverlap) |} ∧
    wfIntervals (noIntervals rows pickHome) ∧
    wfIntervals (noIntervals rows pickMedic) ∧
    wfIntervals (noIntervals rows pickReserve) ∧
    wfIntervals (boolIntervals rows pickOverlap).
Proof.
  destruct (truthy (getTodayData data)) eqn:Htoday.
  - destruct (chartData_rows _ Htoday) as (rows & Hrows & Htimes & _).
    exists rows. split; [exact Hrows|].
    split; [apply outageLines_intervals|].
    apply chartData_ascending in Htimes.
    auto using noIntervals_wf, boolIntervals_wf.
  - exists []. split; [by apply chartData_falsy|].
    split; [reflexivity|].
    repeat split; constructor.
Qed.

Lemma flatten_times (intervals : list (Z * Z)) :
  map t (flatten intervals) = seqZ 0 48.
Proof. unfold flatten. rewrite map_map. exact (map_id (seqZ 0 48)). Qed.

Lemma flatten_covered (intervals : list (Z * Z)) (r : row) :
  r ∈ flatten intervals →
  truthy (pickOverlap r) = covered (t r) intervals.
Proof.
  unfold flatten. rewrite list_elem_of_In, in_map_iff.
  by intros (x & <- & _).
Qed.

(** C8. Round trip: let [intervals] be extracted from a 48-point timeline
    for a boolean predicate.  Every 48-point timeline whose predicate is
    true exactly at the points covered by [intervals], in particular the
    flattening of [intervals], yields [intervals] again. *)
Theorem extraction_round_trip (rows : list row) (pickBool : row → value) :
  map t rows = seqZ 0 48 →
  (∀ (rows' : list row) (pickBool' : row → value),
     map t rows' = seqZ 0 48 →
     (∀ r', r' ∈ rows' →
        truthy (pickBool' r') =
        covered (t r') (boolIntervals rows pickBool)) →
     boolIntervals rows' pickBool' = boolIntervals rows pickBool ∧
     getBoolIntervalsFromRows rows' pickBool' =
     getBoolIntervalsFromRows rows pickBool) ∧
  boolIntervals (flatten (boolIntervals rows pickBool)) pickOverlap =
  boolIntervals rows pickBool.
Proof.
  intros Htimes.
  assert (Hgen : ∀ (rows' : list row) (pickBool' : row → value),
    map t rows' = seqZ 0 48 →
    (∀ r', r' ∈ rows' →
       truthy (pickBool' r') =
       covered (t r') (boolIntervals rows pickBool)) →
    boolIntervals rows' pickBool' = boolIntervals rows pickBool).
  { intros rows' pickBool' Htimes' Hflat.
    pose proof (chartData_ascending _ Htimes) as Hasc.
    pose proof (chartData_ascending _ Htimes') as Hasc'.
    rewrite (boolIntervals_ascending rows'), (boolIntervals_ascending rows)
      by done.
    apply scan_ext, list_eq. intros i.
    assert (Hi : t <$> rows' !! i = t <$> rows !! i).
    { rewrite <- !list_lookup_fmap.
      change (map t rows' !! i = map t rows !! i). congruence. }
    rewrite !list_lookup_fmap.
    destruct (rows' !! i) as [r'|] eqn:Hr', (rows !! i) as [r|] eqn:Hr;
      simpl in *; try discriminate; [|reflexivity].
    injection Hi as Hi. f_equal. f_equal; [exact Hi|].
    rewrite Hflat by (by eapply list_elem_of_lookup_2).
    rewrite Hi. apply boolIntervals_covered; [done|].
    by eapply list_elem_of_lookup_2. }
  split.
  - intros rows' pickBool' Htimes' Hflat.
    unfold getBoolIntervalsFromRows. by rewrite (Hgen rows' pickBool').
  - apply Hgen; [apply flatten_times|]. apply flatten_covered.
Qed.

Lemma overlap_iff_both_no_witness :
  truthy (getTodayData sampleSnapshot) = true ∧
  ∃ rows, chartData (getTodayData sampleSnapshot) = Some rows ∧
    map t rows = seqZ 0 48.
Proof.
  split; [reflexivity|].
  destruct (overlap_iff_both_no sampleSnapshot eq_refl)
    as (rows & Hrows & Htimes & _).
  exists rows. split; assumption.
Defined.

Lemma extraction_round_trip_witness :
  map t (flatten [(3, 7); (20, 48)]) = seqZ 0 48 ∧
  boolIntervals
    (flatten (boolIntervals (flatten [(3, 7); (20, 48)]) pickOverlap))
    pickOverlap =
  boolIntervals (flatten [(3, 7); (20, 48)]) pickOverlap.
Proof.
  split; [reflexivity|].
  apply (extraction_round_trip (flatten [(3, 7); (20, 48)]) pickOverlap).
  reflexivity.
Defined.

(** * Per-group outage flag *)

Lemma hasOutageLoop_existsb (group : value) (hourIndices : list Z) :
  hasOutageLoop group hourIndices =
  existsb (fun h => isOutageKey (get_opt group (String_of_number h)))
    hourIndices.
Proof.
  induction hourIndices as [|h hs IH]; [reflexivity|].
  cbn [hasOutageLoop existsb].
  pose proof (isOutageKey_halves (get_opt group (String_of_number h))) as Hh.
  destruct (expandHourToHalves _) as [a b]. simpl in Hh.
  rewrite Hh, IH. by destruct (isOutageKey _).
Qed.

Lemma hasOutageLoop_day (today : value) (gkey : string) :
  hasOutageLoop (get_opt today gkey) (seqZ 1 24) = true ↔
  ∃ h, 1 ≤ h ≤ 24 ∧ isOutageKey (rawStatus today gkey h) = true.
Proof.
  rewrite hasOutageLoop_existsb, existsb_exists. unfold rawStatus.
  split; intros (h & Hh & Hout); exists h; (split; [|exact Hout]).
  - apply list_elem_of_In, elem_of_seqZ in Hh. lia.
  - apply list_elem_of_In, elem_of_seqZ. lia.
Qed.

Lemma hasOutageLoop_missing (group : value) (hourIndices : list Z) :
  group = VUndefined ∨ group = VNull →
  hasOutageLoop group hourIndices = false.
Proof.
  intros Hgroup. rewrite hasOutageLoop_existsb.
  induction hourIndices as [|h hs IH]; [reflexivity|].
  simpl. rewrite IH. by destruct Hgroup as [-> | ->].
Qed.

(** With [today] present, the result object holds, for each of the three
    groups, the outcome of the loop over the 24 hours. *)
Lemma groupHasOutages_truthy (today : value) :
  truthy today = true →
  groupHasOutages today =
  Some (<[GROUP_RESERVE :=
            hasOutageLoop (get_opt today GROUP_RESERVE) (seqZ 1 24)]>
          (<[GROUP_MEDIC :=
               hasOutageLoop (get_opt today GROUP_MEDIC) (seqZ 1 24)]>
             (<[GROUP_HOME :=
                  hasOutageLoop (get_opt today GROUP_HOME) (seqZ 1 24)]> ∅))).
Proof.
  intros Htoday. unfold groupHasOutages. rewrite Htoday.
  cbn [negb GROUPS fold_left].
  cbv [mbind option_bind]. by rewrite !get_prop_truthy.
Qed.

Lemma groupHasOutages_lookup (today : value) (gkey : string) :
  truthy today = true → gkey ∈ GROUPS →
  ∃ res, groupHasOutages today = Some res ∧
    res !! gkey = Some (hasOutageLoop (get_opt today gkey) (seqZ 1 24)).
Proof.
  intros Htoday Hgkey. eexists. split; [by apply groupHasOutages_truthy|].
  unfold GROUPS in Hgkey. rewrite !elem_of_cons, elem_of_nil in Hgkey.
  destruct Hgkey as [->|[->|[->|[]]]].
  - rewrite !lookup_insert_ne by done. by rewrite lookup_insert_eq.
  - rewrite lookup_insert_ne by done. by rewrite lookup_insert_eq.
  - by rewrite lookup_insert_eq.
Qed.

Lemma groupHasOutages_falsy (today : value) :
  truthy today = false →
  ∃ res, groupHasOutages today = Some res ∧
    ∀ gkey, gkey ∈ GROUPS → res !! gkey = Some false.
Proof.
  intros Htoday. unfold groupHasOutages. rewrite Htoday.
  eexists. split; [reflexivity|]. intros gkey Hgkey.
  unfold GROUPS in Hgkey. rewrite !elem_of_cons, elem_of_nil in Hgkey.
  destruct Hgkey as [->|[->|[->|[]]]].
  - rewrite !lookup_insert_ne by done. by rewrite lookup_insert_eq.
  - rewrite lookup_insert_ne by done. by rewrite lookup_insert_eq.
  - by rewrite lookup_insert_eq.
Qed.

(** C4. For every snapshot with today data and every group of the
    dashboard, the outage flag of the group is computed without error and
    is true exactly when some hour slot 1..24 of the group has a
    normalised key among ['no'], ['first'], ['second']; equivalently, when
    one of the two expanded halves of some hour is an outage key.  A group
    that is missing from the snapshot gets the flag [false]. *)
Theorem groupHasOutages_spec (data : value) (gkey : string) :
  truthy (getTodayData data) = true → gkey ∈ GROUPS →
  ∃ res has,
    groupHasOutages (getTodayData data) = Some res ∧
    res !! gkey = Some has ∧
    (has = true ↔
     ∃ h, 1 ≤ h ≤ 24 ∧
       normalizeStatusKey (rawStatus (getTodayData data) gkey h)
         ∈ [VStr "no"; VStr "first"; VStr "second"]) ∧
    (has = true ↔
     ∃ h, 1 ≤ h ≤ 24 ∧
       let halves :=
         expandHourToHalves (rawStatus (getTodayData data) gkey h) in
       isOutageKey (VStr halves.1) = true ∨
       isOutageKey (VStr halves.2) = true) ∧
    (get_opt (getTodayData data) gkey = VUndefined ∨
     get_opt (getTodayData data) gkey = VNull → has = false).
Proof.
  intros Htoday Hgkey.
  destruct (groupHasOutages_lookup _ _ Htoday Hgkey) as (res & Hres & Hhas).
  exists res, (hasOutageLoop (get_opt (getTodayData data) gkey) (seqZ 1 24)).
  split; [exact Hres|]. split; [exact Hhas|].
  rewrite hasOutageLoop_day. split; [|split].
  - by setoid_rewrite isOutageKey_normalized.
  - simpl. setoid_rewrite <- orb_true_iff.
    by setoid_rewrite isOutageKey_halves.
  - apply hasOutageLoop_missing.
Qed.

Lemma groupHasOutages_spec_witness :
  ∃ res has,
    groupHasOutages (getTodayData sampleSnapshot) = Some res ∧
    res !! GROUP_MEDIC = Some has.
Proof.
  destruct (groupHasOutages_spec sampleSnapshot GROUP_MEDIC eq_refl)
    as (res & has & Hres & Hhas & _).
  - unfold GROUPS. rewrite !elem_of_cons. auto.
  - exists res, has. split; assumption.
Defined.

(** * The empty state *)

Lemma getTodayData_no_pointer (data : value) :
  truthy (getTodayTimestamp data) = false → getTodayData data = VNull.
Proof. intros Hts. unfold getTodayData. by rewrite Hts. Qed.

(** C9. When the snapshot has no usable today pointer ([fact.today] is
    absent, [null] or otherwise falsy, or the snapshot itself is),
    [getTodayData] returns [null], the outage flag of every group is
    [false], the timeline is empty and the four interval lists are empty;
    none of these derivations raises. *)
Theorem no_today_is_empty_state (data : value) :
  truthy (getTodayTimestamp data) = false →
  getTodayData data = VNull ∧
  (∃ res, groupHasOutages (getTodayData data) = Some res ∧
     ∀ gkey, gkey ∈ GROUPS → res !! gkey = Some false) ∧
  ∃ rows, chartData (getTodayData data) = Some rows ∧
    outageLines rows =
      {| lines_home := []; lines_medic := [];
         lines_reserve := []; lines_overlap := [] |}.
Proof.
  intros Hdata.
  rewrite (getTodayData_no_pointer data Hdata).
  split; [reflexivity|]. split.
  - by apply groupHasOutages_falsy.
  - exists []. by split.
Qed.

Lemma no_today_is_empty_state_witness :
  getTodayData sampleNoToday = VNull ∧
  getTodayData VNull = VNull.
Proof.
  split.
  - apply (no_today_is_empty_state sampleNoToday). reflexivity.
  - apply (no_today_is_empty_state VNull). reflexivity.
Defined.

(** * Transition ticks *)

Lemma Set_add_elem (x y : Z) (ticks : list Z) :
  y ∈ Set_add x ticks ↔ y ∈ ticks ∨ y = x.
Proof.
  unfold Set_add. destruct (decide (x ∈ ticks)) as [Hx|Hx].
  - split; [auto|]. by intros [?| ->].
  - rewrite elem_of_app, list_elem_of_singleton. tauto.
Qed.

Lemma Set_add_NoDup (x : Z) (ticks : list Z) :
  NoDup ticks → NoDup (Set_add x ticks).
Proof.
  intros Hnd. unfold Set_add. destruct (decide (x ∈ ticks)) as [Hx|Hx];
    [exact Hnd|].
  apply NoDup_app. split; [exact Hnd|]. split.
  - intros y Hy ->%list_elem_of_singleton. contradiction.
  - apply NoDup_singleton.
Qed.

Lemma differs_dec (prev curr : row) :
  differs prev curr ↔
  negb (String.eqb (medicKey prev) (medicKey curr))
  || negb (String.eqb (reserveKey prev) (reserveKey curr))
  || negb (Bool.eqb (overlapNo prev) (overlapNo curr)) = true.
Proof.
  unfold differs. rewrite !orb_true_iff, !negb_true_iff.
  rewrite <- !not_true_iff_false, !String.eqb_eq, Bool.eqb_true_iff.
  tauto.
Qed.

(** One iteration with both rows in range. *)
Lemma tickStep_in_range
    (rows : list row) (ticks : list Z) (i : nat) (prev curr : row) :
  rows !! (i - 2)%nat = Some prev → rows !! (i - 1)%nat = Some curr →
  NoDup ticks →
  ∃ ticks', tickStep rows (Some ticks) i = Some ticks' ∧ NoDup ticks' ∧
    ∀ y, y ∈ ticks' ↔ y ∈ ticks ∨ (differs prev curr ∧ y = t curr).
Proof.
  intros Hprev Hcurr Hnd. unfold tickStep.
  cbv [mbind option_bind]. rewrite Hprev, Hcurr.
  eexists. split; [reflexivity|]. split.
  - repeat (match goal with
            | |- NoDup (if ?b then _ else _) => destruct b
            end; try apply Set_add_NoDup); exact Hnd.
  - intros y. rewrite differs_dec.
    destruct (negb (String.eqb (medicKey prev) (medicKey curr))),
      (negb (String.eqb (reserveKey prev) (reserveKey curr))),
      (negb (Bool.eqb (overlapNo prev) (overlapNo curr)));
      simpl; rewrite ?Set_add_elem; intuition discriminate.
Qed.

(** The loop over in-range indices never fails; it adds the coordinates
    of the points that differ from their predecessor, and nothing else. *)
Lemma tickStep_loop (rows : list row) (indices : list nat) :
  ∀ ticks,
    (∀ i, i ∈ indices → (2 ≤ i ≤ length rows)%nat) → NoDup ticks →
    ∃ ticks', fold_left (tickStep rows) indices (Some ticks) = Some ticks' ∧
      NoDup ticks' ∧
      ∀ y, y ∈ ticks' ↔
        y ∈ ticks ∨
        ∃ i prev curr, i ∈ indices ∧
          rows !! (i - 2)%nat = Some prev ∧ rows !! (i - 1)%nat = Some curr ∧
          differs prev curr ∧ y = t curr.
Proof.
  induction indices as [|i indices IH]; intros ticks Hrange Hnd.
  - exists ticks. split; [reflexivity|]. split; [exact Hnd|].
    intros y. split; [auto|]. intros [Hy|(i & ? & ? & Hi & _)]; [exact Hy|].
    by apply elem_of_nil in Hi.
  - assert (Hi : (2 ≤ i ≤ length rows)%nat) by (apply Hrange; left).
    destruct (lookup_lt_is_Some_2 rows (i - 2)%nat) as [prev Hprev]; [lia|].
    destruct (lookup_lt_is_Some_2 rows (i - 1)%nat) as [curr Hcurr]; [lia|].
    destruct (tickStep_in_range rows ticks i prev curr Hprev Hcurr Hnd)
      as (ticks1 & Hstep & Hnd1 & Hticks1).
    destruct (IH ticks1) as (ticks' & Hfold & Hnd' & Hticks');
      [intros j Hj; apply Hrange; by right|exact Hnd1|].
    exists ticks'. cbn [fold_left]. rewrite Hstep. split; [exact Hfold|].
    split; [exact Hnd'|]. intros y. rewrite Hticks', Hticks1. split.
    + intros [[Hy|[Hd ->]]|(j & p & c & Hj & ? & ? & ? & ?)].
      * by left.
      * right. exists i, prev, curr. repeat split; try done. by left.
      * right. exists j, p, c. repeat split; try done. by right.
    + intros [Hy|(j & p & c & Hj & Hp & Hc & Hd & ->)]; [by left; left|].
      apply elem_of_cons in Hj as [->|Hj].
      * left; right. rewrite Hprev in Hp. rewrite Hcurr in Hc.
        by simplify_eq.
      * right. exists j, p, c. by repeat split.
Qed.

Lemma StronglySorted_le_lt (l : list Z) :
  StronglySorted Z.le l → NoDup l → StronglySorted Z.lt l.
Proof.
  induction 1 as [|x l Hsorted IH Hx]; intros Hnd; constructor.
  - apply IH. by apply NoDup_cons in Hnd as [_ ?].
  - apply NoDup_cons in Hnd as [Hnotin _].
    apply Forall_forall. intros y Hy.
    rewrite Forall_forall in Hx. specialize (Hx y Hy).
    assert (x ≠ y) by (intros ->; contradiction). lia.
Qed.

(** The tick computation never fails; its result is strictly ascending
    and holds 0, 24 and the coordinates of the points whose tracked
    signals differ from those of the preceding point. *)
Lemma transitionTicks_char (rows : list row) :
  ∃ ticks, transitionTicks rows = Some ticks ∧
    StronglySorted Z.lt ticks ∧
    ∀ y, y ∈ ticks ↔
      y = hours 0 ∨ y = hours 24 ∨
      ∃ (j : nat) prev curr,
        rows !! j = Some prev ∧ rows !! S j = Some curr ∧
        differs prev curr ∧ y = t curr.
Proof.
  unfold transitionTicks. destruct rows as [|r0 rows].
  - exists [hours 0; hours 24]. split; [reflexivity|]. split.
    + repeat constructor.
    + intros y. rewrite !elem_of_cons, elem_of_nil. split.
      * intros [?|[?|[]]]; auto.
      * intros [?|[?|(j & ? & ? & Hj & _)]]; auto. discriminate.
  - change (length (r0 :: rows) =? 0)%nat with false. cbv iota.
    set (chart := r0 :: rows).
    destruct (tickStep_loop chart (seq 2 (length chart - 1))
                [hours 0; hours 24]) as (ticks & Hfold & Hnd & Hticks).
    { intros i Hi%elem_of_seq. simpl in *. lia. }
    { apply NoDup_cons. split; [|apply NoDup_singleton].
      rewrite list_elem_of_singleton. discriminate. }
    exists (merge_sort Z.le ticks). rewrite Hfold.
    split; [reflexivity|]. split.
    + apply StronglySorted_le_lt; [apply (StronglySorted_merge_sort _)|].
      by rewrite merge_sort_Permutation.
    + intros y. rewrite merge_sort_Permutation, Hticks.
      rewrite !elem_of_cons, elem_of_nil. split.
      * intros [[?|[?|[]]]|(i & p & c & Hi%elem_of_seq & Hp & Hc & Hd & ->)];
          auto.
        right; right. exists (i - 2)%nat, p, c.
        replace (S (i - 2)) with (i - 1)%nat by lia. by repeat split.
      * intros [?|[?|(j & p & c & Hp & Hc & Hd & ->)]]; auto.
        right. exists (S (S j)), p, c.
        pose proof (lookup_lt_Some _ _ _ Hc).
        rewrite elem_of_seq. simpl in *.
        replace (j - 0)%nat with j by lia.
        repeat split; try done; lia.
Qed.

(** C5. For every sequence of points, the empty one included, the
    transition ticks are computed without error; the result is sorted in
    (strictly) ascending order, contains 0 and 24, contains the [t] of
    each point whose medic key, reserve key or overlap flag differs from
    that of the immediately preceding point, and contains nothing else. *)
Theorem transitionTicks_spec (rows : list row) :
  ∃ ticks, transitionTicks rows = Some ticks ∧
    StronglySorted Z.lt ticks ∧
    hours 0 ∈ ticks ∧ hours 24 ∈ ticks ∧
    ∀ y, y ∈ ticks ↔
      y = hours 0 ∨ y = hours 24 ∨
      ∃ (j : nat) prev curr,
        rows !! j = Some prev ∧ rows !! S j = Some curr ∧
        differs prev curr ∧ y = t curr.
Proof.
  destruct (transitionTicks_char rows) as (ticks & Heq & Hsorted & Hticks).
  exists ticks. split; [exact Heq|]. split; [exact Hsorted|].
  split; [apply Hticks; auto|]. split; [apply Hticks; auto|].
  exact Hticks.
Qed.

(** * Ticks do not depend on the home group *)

Lemma tickStep_tracked
    (rows rows' : list row) (acc : option (list Z)) (i : nat) :
  map tracked rows = map tracked rows' →
  tickStep rows acc i = tickStep rows' acc i.
Proof.
  intros Heq.
  assert (Hlookup : ∀ j, tracked <$> rows !! j = tracked <$> rows' !! j).
  { intros j. rewrite <- !list_lookup_fmap.
    change (map tracked rows !! j = map tracked rows' !! j). congruence. }
  unfold tickStep. destruct acc as [ticks|]; [|reflexivity].
  cbv [mbind option_bind].
  pose proof (Hlookup (i - 2)%nat) as Hprev.
  pose proof (Hlookup (i - 1)%nat) as Hcurr.
  destruct (rows !! (i - 2)%nat) as [prev|],
    (rows' !! (i - 2)%nat) as [prev'|]; try discriminate; [|reflexivity].
  destruct (rows !! (i - 1)%nat) as [curr|],
    (rows' !! (i - 1)%nat) as [curr'|]; try discriminate; [|reflexivity].
  unfold tracked in Hprev, Hcurr. simpl in Hprev, Hcurr.
  injection Hprev as _ -> -> ->. injection Hcurr as -> -> -> ->.
  reflexivity.
Qed.

Lemma fold_left_ext {A B : Type} (f g : A → B → A) (l : list B) :
  (∀ a x, f a x = g a x) → ∀ a, fold_left f l a = fold_left g l a.
Proof.
  intros Hfg. induction l as [|x l IH]; intros a; [reflexivity|].
  simpl. by rewrite Hfg, IH.
Qed.

(** The ticks are a function of the tracked fields of the rows. *)
Lemma transitionTicks_tracked (rows rows' : list row) :
  map tracked rows = map tracked rows' →
  transitionTicks rows = transitionTicks rows'.
Proof.
  intros Heq.
  assert (Hlen : length rows = length rows').
  { by rewrite <- (length_map tracked rows), Heq, length_map. }
  unfold transitionTicks. rewrite Hlen.
  destruct (length rows' =? 0)%nat; [reflexivity|]. f_equal.
  apply fold_left_ext. intros acc i. by apply tickStep_tracked.
Qed.

Lemma chartData_tracked (today today' : value) :
  truthy today = true → truthy today' = true →
  get_opt today GROUP_MEDIC = get_opt today' GROUP_MEDIC →
  get_opt today GROUP_RESERVE = get_opt today' GROUP_RESERVE →
  ∃ rows rows',
    chartData today = Some rows ∧ chartData today' = Some rows' ∧
    map tracked rows = map tracked rows'.
Proof.
  intros Htoday Htoday' Hmedic Hreserve.
  do 2 eexists. split; [by apply chartData_truthy|].
  split; [by apply chartData_truthy|].
  rewrite !map_bind, Hmedic, Hreserve.
  apply bind_ext. intros h. apply chartRowsOfHour_tracked.
Qed.

(** C10. For two snapshots with today data whose today entries agree on
    every group other than the home group GPV1.1, the timelines are built
    and the transition ticks are computed without error, and the two tick
    lists are identical. *)
Theorem ticks_ignore_home (data data' : value) :
  truthy (getTodayData data) = true →
  truthy (getTodayData data') = true →
  (∀ gkey, gkey ≠ GROUP_HOME →
     get_opt (getTodayData data) gkey = get_opt (getTodayData data') gkey) →
  ∃ rows rows' ticks,
    chartData (getTodayData data) = Some rows ∧
    chartData (getTodayData data') = Some rows' ∧
    transitionTicks rows = Some ticks ∧
    transitionTicks rows' = Some ticks.
Proof.
  intros Htoday Htoday' Hsame.
  destruct (chartData_tracked _ _ Htoday Htoday')
    as (rows & rows' & Hrows & Hrows' & Htracked).
  { by apply Hsame. }
  { by apply Hsame. }
  destruct (transitionTicks_char rows) as (ticks & Hticks & _).
  exists rows, rows', ticks. repeat split; try done.
  by rewrite <- (transitionTicks_tracked rows rows').
Qed.

Lemma ticks_ignore_home_witness :
  ∃ rows rows' ticks,
    chartData (getTodayData sampleSnapshot) = Some rows ∧
    chartData (getTodayData sampleSnapshot') = Some rows' ∧
    transitionTicks rows = Some ticks ∧
    transitionTicks rows' = Some ticks.
Proof.
  apply (ticks_ignore_home sampleSnapshot sampleSnapshot');
    [reflexivity|reflexivity|].
  intros gkey Hgkey.
  change (getTodayData sampleSnapshot)
    with (sampleToday (sampleSchedule [(5, "first")]%string)).
  change (getTodayData sampleSnapshot')
    with (sampleToday (sampleSchedule [(1, "no"); (9, "second")]%string)).
  unfold get_opt, get_prop, sampleToday.
  assert (Hne : GROUP_HOME ≠ gkey) by (intros Heq; by apply Hgkey).
  by rewrite !(lookup_insert_ne _ GROUP_HOME gkey _ Hne).
Defined.

(** * The scenarios of the specification *)

(** Scenarios A and B: a mid-hour transition and a merged run. *)
Example scenario_A_B :
  (rows ← chartData (getTodayData sampleSnapshot); Some (outageLines rows)) =
  Some {| lines_home := ["04:00-04:30"]%string;
          lines_medic := ["02:00-05:00"; "10:00-10:30"]%string;
          lines_reserve := ["10:00-11:00"; "23:30-24:00"]%string;
          lines_overlap := ["10:00-10:30"]%string |}.
Proof. vm_compute. reflexivity. Qed.

Example scenario_ticks :
  (rows ← chartData (getTodayData sampleSnapshot); transitionTicks rows) =
  Some [0; 4; 10; 20; 21; 22; 46; 47; 48].
Proof. vm_compute. reflexivity. Qed.

(** Scenario D: no today pointer. *)
Example scenario_D :
  getTodayData sampleNoToday = VNull ∧
  (rows ← chartData (getTodayData sampleNoToday); transitionTicks rows) =
  Some [hours 0; hours 24].
Proof. split; reflexivity. Qed.

(** * Further properties: classification *)

(** Rewrites the normalisation of a value that is visibly not a string. *)
Ltac normalize_not_str :=
  match goal with
  | |- context [normalizeStatusKey ?v] =>
      lazymatch v with
      | VStr _ => fail
      | normalizeStatusKey _ => fail
      | _ => rewrite !(normalizeStatusKey_not_str v)
               by (intros ?; discriminate)
      end
  end.

(** X1. Normalising twice is normalising once. *)
Theorem normalizeStatusKey_idempotent (raw : value) :
  normalizeStatusKey (normalizeStatusKey raw) = normalizeStatusKey raw.
Proof.
  destruct raw as [| |b|n|s|items|fields];
    try (normalize_not_str; reflexivity).
  rewrite !normalizeStatusKey_str. unfold CANONICAL. cbn.
  case_strings; reflexivity.
Qed.

(** X2. Every raw value falls in exactly one of three classes: an outage key
    (['no'], ['first'], ['second']), ['maybe'], or ['yes']. *)
Theorem status_classes_partition (raw : value) :
  let yes := is_str (normalizeStatusKey raw) "yes" in
  (isOutageKey raw = true ∧ isMaybeKey raw = false ∧ yes = false) ∨
  (isOutageKey raw = false ∧ isMaybeKey raw = true ∧ yes = false) ∨
  (isOutageKey raw = false ∧ isMaybeKey raw = false ∧ yes = true).
Proof.
  unfold isOutageKey, isMaybeKey.
  destruct raw as [| |b|n|s|items|fields];
    try (normalize_not_str; simpl; by auto).
  rewrite !normalizeStatusKey_str. unfold CANONICAL. cbn.
  case_strings; auto.
Qed.

Lemma getEffectiveStatus_table (raw : value) (minutes : Z) :
  getEffectiveStatus raw minutes =
  VStr (if minutes <? 30 then (expandTable raw).1 else (expandTable raw).2).
Proof.
  unfold getEffectiveStatus.
  destruct raw as [| |b|n|s|items|fields];
    try (normalize_not_str; simpl; by destruct (minutes <? 30)).
  rewrite !normalizeStatusKey_str. unfold CANONICAL, expandTable. cbn.
  case_strings; by destruct (minutes <? 30).
Qed.

(** X3. The status in effect at a minute of an hour is the half of the hour
    that the timeline shows there: the first half before minute 30, the
    second half from minute 30 on.  It is never a transitional key. *)
Theorem getEffectiveStatus_halves (raw : value) (minutes : Z) :
  getEffectiveStatus raw minutes =
    VStr (if minutes <? 30 then (expandHourToHalves raw).1
          else (expandHourToHalves raw).2) ∧
  getEffectiveStatus raw minutes ∈ [VStr "yes"; VStr "no"; VStr "maybe"].
Proof.
  rewrite getEffectiveStatus_table, expandHourToHalves_table.
  split; [reflexivity|].
  destruct (expandHourToHalves_range raw) as [H1 H2].
  rewrite expandHourToHalves_table in H1, H2.
  destruct (minutes <? 30);
    [revert H1|revert H2]; rewrite !elem_of_cons, !elem_of_nil;
    intros [->|[->|[->|[]]]]; auto.
Qed.

Lemma statusToLevel_half (s : string) :
  s ∈ ["yes"; "no"; "maybe"]%string →
  (statusToLevel (VStr s) = 0 ↔ s = "no"%string) ∧
  (statusToLevel (VStr s) = 1 ↔ s = "maybe"%string) ∧
  (statusToLevel (VStr s) = 2 ↔ s = "yes"%string).
Proof.
  rewrite !elem_of_cons, elem_of_nil.
  intros [->|[->|[->|[]]]]; repeat split; intros; done.
Qed.

Lemma expandedStatus_range (today : value) (gkey : string) (i : Z) :
  expandedStatus today gkey i ∈ ["yes"; "no"; "maybe"]%string.
Proof.
  unfold expandedStatus.
  destruct (expandHourToHalves_range (rawStatus today gkey (i `div` 2 + 1)))
    as [H1 H2].
  by destruct (i `mod` 2 =? 0).
Qed.

Lemma chartRowsOfHour_levels
    (homeGroup medicGroup reserveGroup : value) (hourIndex : Z) (r : row) :
  r ∈ chartRowsOfHour homeGroup medicGroup reserveGroup hourIndex →
  home r = statusToLevel (VStr (homeKey r)) ∧
  medic r = statusToLevel (VStr (medicKey r)) ∧
  reserve r = statusToLevel (VStr (reserveKey r)) ∧
  rangeLabel r = formatHalfRange (t r).
Proof.
  unfold chartRowsOfHour.
  destruct (expandHourToHalves (get_opt homeGroup _)),
    (expandHourToHalves (get_opt medicGroup _)),
    (expandHourToHalves (get_opt reserveGroup _)).
  rewrite !elem_of_cons, elem_of_nil. by intros [->|[->|[]]].
Qed.

(** X4. On the timeline of a day the plotted level of each group is 0, 1 or 2
    according to whether its expanded status is ['no'], ['maybe'] or
    ['yes'], and the overlap flag is set exactly where the medic and the
    reserve lines are both at level 0. *)
Theorem chart_levels (data : value) :
  truthy (getTodayData data) = true →
  ∃ rows, chartData (getTodayData data) = Some rows ∧
    ∀ r, r ∈ rows →
      (home r = 0 ↔ homeKey r = "no"%string) ∧
      (home r = 1 ↔ homeKey r = "maybe"%string) ∧
      (home r = 2 ↔ homeKey r = "yes"%string) ∧
      (medic r = 0 ↔ medicKey r = "no"%string) ∧
      (medic r = 1 ↔ medicKey r = "maybe"%string) ∧
      (medic r = 2 ↔ medicKey r = "yes"%string) ∧
      (reserve r = 0 ↔ reserveKey r = "no"%string) ∧
      (reserve r = 1 ↔ reserveKey r = "maybe"%string) ∧
      (reserve r = 2 ↔ reserveKey r = "yes"%string) ∧
      (overlapNo r = true ↔ medic r = 0 ∧ reserve r = 0).
Proof.
  intros Htoday.
  destruct (chartData_rows _ Htoday) as (rows & Hrows & _ & Hkeys).
  exists rows. split; [exact Hrows|]. intros r Hr.
  destruct (Hkeys r Hr) as (Hhome & Hmedic & Hreserve & Hoverlap).
  rewrite chartData_truthy in Hrows by done.
  apply (inj Some) in Hrows. rewrite <- Hrows in Hr.
  apply list_elem_of_bind in Hr as (h & Hr & _).
  apply chartRowsOfHour_levels in Hr as (-> & -> & -> & _).
  pose proof (expandedStatus_range (getTodayData data) GROUP_HOME (t r)) as Hh.
  pose proof (expandedStatus_range (getTodayData data) GROUP_MEDIC (t r)) as Hm.
  pose proof (expandedStatus_range (getTodayData data) GROUP_RESERVE (t r))
    as Hs.
  rewrite <- Hhome in Hh. rewrite <- Hmedic in Hm. rewrite <- Hreserve in Hs.
  destruct (statusToLevel_half _ Hh) as (? & ? & ?).
  destruct (statusToLevel_half _ Hm) as (Hm0 & ? & ?).
  destruct (statusToLevel_half _ Hs) as (Hs0 & ? & ?).
  repeat (split; [assumption|]).
  by rewrite Hoverlap, both_no_iff, Hm0, Hs0.
Qed.

Lemma chart_levels_witness :
  ∃ rows, chartData (getTodayData sampleSnapshot) = Some rows.
Proof.
  destruct (chart_levels sampleSnapshot eq_refl) as (rows & Hrows & _).
  by exists rows.
Defined.

(** * Further properties: intervals of a day *)

Lemma noIntervals_spec (rows : list row) (pickKey : row → value) :
  noIntervals rows pickKey =
  specIntervals (fun r => isNoAtHour (pickKey r)) rows.
Proof.
  rewrite noIntervals_scan. unfold specIntervals.
  by rewrite (proj1 (scan_specRuns _ rows)).
Qed.

Lemma boolIntervals_spec (rows : list row) (pickBool : row → value) :
  boolIntervals rows pickBool =
  specIntervals (fun r => truthy (pickBool r)) rows.
Proof.
  rewrite boolIntervals_scan. unfold specIntervals.
  by rewrite (proj1 (scan_specRuns _ rows)).
Qed.

(** The loop yields no interval exactly when the predicate holds at no
    point. *)
Lemma scan_nil_iff (on : row → bool) (rows : list row) :
  scan on None rows = [] ↔ ∀ r, r ∈ rows → on r = false.
Proof.
  induction rows as [|r0 rows IH]; simpl.
  - split; [|done]. intros _ r Hr. by apply elem_of_nil in Hr.
  - destruct (on r0) eqn:Hon.
    + rewrite (proj2 (scan_specRuns on rows)). split; [discriminate|].
      intros Hoff. specialize (Hoff r0 (list_elem_of_here _ _)). congruence.
    + rewrite IH. split.
      * intros Hoff r [->|Hr]%elem_of_cons; auto.
      * intros Hoff r Hr. apply Hoff. by right.
Qed.

(** The total duration of the intervals of a timeline of consecutive
    half-hours that ends at 24 is the number of points where the predicate
    holds. *)
Lemma scan_duration (on : row → bool) (rows : list row) :
  ∀ a n, map t rows = seqZ a n → 0 ≤ n → a + n = hours 24 →
    totalDuration (scan on None rows) = countIf on rows ∧
    ∀ s, totalDuration (scan on (Some s) rows) = (a - s) + countIf on rows.
Proof.
  unfold countIf.
  induction rows as [|r rows IH]; intros a n Heq Hn Hend.
  - assert (n = 0) as ->.
    { destruct (decide (0 < n)); [|lia].
      rewrite seqZ_cons in Heq by done. discriminate. }
    simpl. split; [reflexivity|]. intros s. lia.
  - assert (0 < n) as Hpos.
    { destruct (decide (0 < n)); [done|].
      rewrite seqZ_nil in Heq by lia. discriminate. }
    rewrite seqZ_cons in Heq by done. simpl in Heq.
    injection Heq as Ht Heq.
    destruct (IH _ _ Heq) as [IHnone IHsome]; [lia|lia|].
    simpl. destruct (on r) eqn:Hon; simpl; split; try intros s.
    + rewrite IHsome. lia.
    + rewrite IHsome. lia.
    + exact IHnone.
    + rewrite IHnone. lia.
Qed.

(** A raw key is an outage key exactly when one of its halves is
    ['no']. *)
Lemma isOutageKey_no_half (raw : value) :
  isOutageKey raw = true ↔
  (expandHourToHalves raw).1 = "no"%string ∨
  (expandHourToHalves raw).2 = "no"%string.
Proof.
  rewrite <- isOutageKey_halves, orb_true_iff.
  destruct (expandHourToHalves_range raw) as [H1 H2].
  revert H1 H2. rewrite !elem_of_cons, !elem_of_nil.
  intros [->|[->|[->|[]]]] [->|[->|[->|[]]]];
    split; intros [?|?]; try discriminate; auto.
Qed.

Lemma timeline_point (rows : list row) (x : Z) :
  map t rows = seqZ 0 48 → 0 ≤ x < 48 → ∃ r, r ∈ rows ∧ t r = x.
Proof.
  intros Htimes Hx.
  assert (Hin : x ∈ map t rows).
  { rewrite Htimes. apply elem_of_seqZ. lia. }
  apply list_elem_of_In, in_map_iff in Hin as (r & Hr & Hin).
  exists r. split; [by apply list_elem_of_In|done].
Qed.

Lemma timeline_bounds (rows : list row) (r : row) :
  map t rows = seqZ 0 48 → r ∈ rows → 0 ≤ t r < 48.
Proof.
  intros Htimes Hr.
  assert (Hin : t r ∈ seqZ 0 48).
  { rewrite <- Htimes. apply list_elem_of_In, in_map, list_elem_of_In, Hr. }
  apply elem_of_seqZ in Hin. lia.
Qed.

(** For a group whose keys on the timeline are its expanded statuses, the
    outage loop finds no outage exactly when no ['no'] interval is
    extracted. *)
Lemma flag_false_iff_no_interval
    (today : value) (gkey : string) (rows : list row) (pickKey : row → value) :
  map t rows = seqZ 0 48 →
  (∀ r, r ∈ rows → pickKey r = VStr (expandedStatus today gkey (t r))) →
  hasOutageLoop (get_opt today gkey) (seqZ 1 24) = false ↔
  noIntervals rows pickKey = [].
Proof.
  intros Htimes Hpick.
  rewrite noIntervals_ascending by (by apply chartData_ascending).
  rewrite scan_nil_iff, <- not_true_iff_false, hasOutageLoop_day. split.
  - intros Hnone r Hr. apply not_true_iff_false. intros Hon.
    rewrite Hpick, isNoAtHour_str, String.eqb_eq in Hon by done.
    pose proof (timeline_bounds _ _ Htimes Hr) as Hbounds.
    apply Hnone. exists (t r `div` 2 + 1).
    split; [Z.div_mod_to_equations; lia|].
    apply isOutageKey_no_half. unfold expandedStatus in Hon.
    destruct (t r `mod` 2 =? 0); auto.
  - intros Hoff (h & Hh & [Hno|Hno]%isOutageKey_no_half).
    + destruct (timeline_point rows (2 * (h - 1))) as (r & Hr & Ht);
        [done|lia|].
      specialize (Hoff r Hr).
      rewrite Hpick, isNoAtHour_str in Hoff by done.
      unfold expandedStatus in Hoff. rewrite Ht in Hoff.
      replace ((2 * (h - 1)) `div` 2 + 1) with h in Hoff
        by (Z.div_mod_to_equations; lia).
      replace ((2 * (h - 1)) `mod` 2) with 0 in Hoff
        by (Z.div_mod_to_equations; lia).
      simpl in Hoff. rewrite Hno in Hoff. discriminate.
    + destruct (timeline_point rows (2 * (h - 1) + 1)) as (r & Hr & Ht);
        [done|lia|].
      specialize (Hoff r Hr).
      rewrite Hpick, isNoAtHour_str in Hoff by done.
      unfold expandedStatus in Hoff. rewrite Ht in Hoff.
      replace ((2 * (h - 1) + 1) `div` 2 + 1) with h in Hoff
        by (Z.div_mod_to_equations; lia).
      replace ((2 * (h - 1) + 1) `mod` 2) with 1 in Hoff
        by (Z.div_mod_to_equations; lia).
      simpl in Hoff. rewrite Hno in Hoff. discriminate.
Qed.

Lemma map_nil_iff {A B : Type} (f : A → B) (l : list A) :
  map f l = [] ↔ l = [].
Proof. by destruct l. Qed.

(** X5. The badge and the list agree: for every snapshot and each of the
    three groups, the outage flag of the group is [false] exactly when
    the list of its outage intervals is empty. *)
Theorem flag_agrees_with_lines (data : value) :
  ∃ res rows,
    groupHasOutages (getTodayData data) = Some res ∧
    chartData (getTodayData data) = Some rows ∧
    (res !! GROUP_HOME = Some false ↔ lines_home (outageLines rows) = []) ∧
    (res !! GROUP_MEDIC = Some false ↔ lines_medic (outageLines rows) = []) ∧
    (res !! GROUP_RESERVE = Some false ↔
     lines_reserve (outageLines rows) = []).
Proof.
  destruct (truthy (getTodayData data)) eqn:Htoday.
  - destruct (chartData_rows _ Htoday) as (rows & Hrows & Htimes & Hkeys).
    exists (<[GROUP_RESERVE :=
                hasOutageLoop (get_opt (getTodayData data) GROUP_RESERVE)
                  (seqZ 1 24)]>
              (<[GROUP_MEDIC :=
                   hasOutageLoop (get_opt (getTodayData data) GROUP_MEDIC)
                     (seqZ 1 24)]>
                 (<[GROUP_HOME :=
                      hasOutageLoop (get_opt (getTodayData data) GROUP_HOME)
                        (seqZ 1 24)]> ∅))), rows.
    split; [by apply groupHasOutages_truthy|]. split; [exact Hrows|].
    rewrite outageLines_intervals. cbn [lines_home lines_medic lines_reserve].
    rewrite !map_nil_iff.
    assert (Hhome := flag_false_iff_no_interval
                       (getTodayData data) GROUP_HOME rows pickHome Htimes).
    assert (Hmedic := flag_false_iff_no_interval
                        (getTodayData data) GROUP_MEDIC rows pickMedic Htimes).
    assert (Hreserve := flag_false_iff_no_interval
                          (getTodayData data) GROUP_RESERVE rows pickReserve
                          Htimes).
    rewrite <- Hhome, <- Hmedic, <- Hreserve;
      try (intros r Hr; destruct (Hkeys r Hr) as (Hh & Hm & Hs & _);
           unfold pickHome, pickMedic, pickReserve; congruence).
    rewrite !lookup_insert_ne by done. rewrite lookup_insert_eq.
    rewrite lookup_insert_ne by done. rewrite !lookup_insert_eq.
    repeat split; intros; congruence.
  - destruct (groupHasOutages_falsy _ Htoday) as (res & Hres & Hfalse).
    exists res, []. split; [exact Hres|].
    split; [by apply chartData_falsy|].
    rewrite !Hfalse by (unfold GROUPS; rewrite !elem_of_cons; auto).
    by repeat split.
Qed.

(** X6. The listed outage time is the outage time of the timeline: for every
    snapshot, the total duration of each interval list equals the number
    of half-hour points at which the group is ['no'] (for the overlap
    list, at which the overlap flag is set). *)
Theorem total_duration_counts_points (data : value) :
  ∃ rows, chartData (getTodayData data) = Some rows ∧
    totalDuration (noIntervals rows pickHome) =
      countIf (fun r => String.eqb (homeKey r) "no") rows ∧
    totalDuration (noIntervals rows pickMedic) =
      countIf (fun r => String.eqb (medicKey r) "no") rows ∧
    totalDuration (noIntervals rows pickReserve) =
      countIf (fun r => String.eqb (reserveKey r) "no") rows ∧
    totalDuration (boolIntervals rows pickOverlap) =
      countIf overlapNo rows.
Proof.
  destruct (truthy (getTodayData data)) eqn:Htoday.
  - destruct (chartData_rows _ Htoday) as (rows & Hrows & Htimes & _).
    exists rows. split; [exact Hrows|].
    pose proof (chartData_ascending _ Htimes) as Hasc.
    rewrite !noIntervals_ascending, boolIntervals_ascending by done.
    rewrite !(proj1 (scan_duration _ rows 0 48 Htimes ltac:(lia) eq_refl)).
    unfold countIf, pickHome, pickMedic, pickReserve, pickOverlap.
    repeat split; do 2 f_equal; apply filter_ext; intros r;
      by rewrite ?isNoAtHour_str.
  - exists []. split; [by apply chartData_falsy|]. by repeat split.
Qed.

(** * Further properties: ticks and intervals *)

(** The end of a run is marked: if the predicate holds at [prev], the
    set [T] holds 24 and the [t] of every point of [prev :: rest] at which
    the predicate stops holding, then [T] holds the end of the run. *)
Lemma runEnd_marked (on : row → bool) (T : Z → Prop) (rest : list row) :
  ∀ prev, on prev = true → T (hours 24) →
    (∀ (j : nat) p c, (prev :: rest) !! j = Some p →
       (prev :: rest) !! S j = Some c →
       on p = true → on c = false → T (t c)) →
    T (runEnd on rest).
Proof.
  unfold runEnd.
  induction rest as [|r rest IH]; intros prev Hprev Hend Hadj; [exact Hend|].
  simpl. destruct (on r) eqn:Hon; simpl.
  - apply (IH r Hon Hend). intros j p c Hp Hc. by apply (Hadj (S j)).
  - by apply (Hadj 0%nat prev r).
Qed.

(** The ends of the extracted intervals are marked by every set that
    holds the [t] of the first point, 24, and the [t] of every point at
    which the predicate changes. *)
Lemma interval_ends_marked
    (on : row → bool) (T : Z → Prop) (rows : list row) (ab : Z * Z) :
  (∀ r, rows !! 0%nat = Some r → T (t r)) → T (hours 24) →
  (∀ (j : nat) p c, rows !! j = Some p → rows !! S j = Some c →
     on p ≠ on c → T (t c)) →
  ab ∈ specIntervals on rows → T ab.1 ∧ T ab.2.
Proof.
  intros Hfirst Hend Hadj
    (_ & i & r & Hr & [(r' & Hr' & Hon) Hbefore] & ->)%specIntervals_elem.
  assert (r' = r) as -> by congruence.
  simpl. split.
  - destruct i as [|i]; [by apply Hfirst|].
    destruct Hbefore as (p & Hp & Hoff).
    apply (Hadj i p r Hp Hr). congruence.
  - apply (runEnd_marked on T (drop (S i) rows) r Hon Hend).
    intros j p c Hp Hc Hpon Hcoff.
    rewrite <- (drop_S rows r i Hr), lookup_drop in Hp, Hc.
    apply (Hadj (i + j)%nat p c Hp); [|congruence].
    by replace (S (i + j)) with (i + S j)%nat by lia.
Qed.

(** When a predicate extracted from the medic key, the reserve key or
    the overlap flag changes between two points, their tracked signals
    differ. *)
Lemma tracked_predicates (p c : row) :
  (isNoAtHour (pickMedic p) ≠ isNoAtHour (pickMedic c) → differs p c) ∧
  (isNoAtHour (pickReserve p) ≠ isNoAtHour (pickReserve c) → differs p c) ∧
  (truthy (pickOverlap p) ≠ truthy (pickOverlap c) → differs p c).
Proof.
  unfold differs, pickMedic, pickReserve, pickOverlap. simpl.
  repeat split; intros Hne.
  - left. congruence.
  - right; left. congruence.
  - right; right. congruence.
Qed.

Lemma chartData_total (today : value) :
  ∃ rows, chartData today = Some rows ∧
    (∀ r, rows !! 0%nat = Some r → t r = hours 0) ∧
    (∀ r, r ∈ rows → 0 ≤ t r < 48).
Proof.
  destruct (truthy today) eqn:Htoday.
  - destruct (chartData_rows _ Htoday) as (rows & Hrows & Htimes & _).
    exists rows. split; [exact Hrows|]. split.
    + intros r Hr. apply (f_equal (fun l => l !! 0%nat)) in Htimes.
      change (map t rows) with (t <$> rows) in Htimes.
      rewrite list_lookup_fmap, Hr in Htimes. by injection Htimes.
    + intros r Hr. by apply (timeline_bounds rows).
  - exists []. split; [by apply chartData_falsy|].
    split; [discriminate|]. intros r Hr. by apply elem_of_nil in Hr.
Qed.

(** X7. Every outage is labelled on the axis: for every snapshot, the start
    and the end of each interval of the medic list, of the reserve list
    and of the overlap list are transition ticks. *)
Theorem interval_ends_are_ticks (data : value) :
  ∃ rows ticks,
    chartData (getTodayData data) = Some rows ∧
    transitionTicks rows = Some ticks ∧
    ∀ ab,
      ab ∈ noIntervals rows pickMedic ∨
      ab ∈ noIntervals rows pickReserve ∨
      ab ∈ boolIntervals rows pickOverlap →
      ab.1 ∈ ticks ∧ ab.2 ∈ ticks.
Proof.
  destruct (chartData_total (getTodayData data)) as (rows & Hrows & Hfirst & _).
  destruct (transitionTicks_char rows) as (ticks & Hticks & _ & Hmem).
  exists rows, ticks. split; [exact Hrows|]. split; [exact Hticks|].
  assert (Hmarked : ∀ on ab,
    (∀ p c, on p ≠ on c → differs p c) →
    ab ∈ specIntervals on rows → ab.1 ∈ ticks ∧ ab.2 ∈ ticks).
  { intros on ab Hon. apply (interval_ends_marked on (fun x => x ∈ ticks)).
    - intros r Hr. apply Hmem. left. by apply Hfirst.
    - apply Hmem. auto.
    - intros j p c Hp Hc Hne. apply Hmem. right; right.
      exists j, p, c. repeat split; try done. by apply Hon. }
  rewrite !noIntervals_spec, boolIntervals_spec.
  intros ab [Hab|[Hab|Hab]]; revert Hab; apply Hmarked; intros p c;
    apply (tracked_predicates p c).
Qed.

Lemma sorted_length_bound (l : list Z) :
  ∀ lo hi, StronglySorted Z.lt l → Forall (fun x => lo ≤ x ≤ hi) l →
    Z.of_nat (length l) ≤ Z.max 0 (hi + 1 - lo).
Proof.
  induction l as [|x l IH]; intros lo hi Hsorted Hall; [simpl; lia|].
  apply StronglySorted_inv in Hsorted as [Hsorted Hx].
  apply Forall_cons in Hall as [Hxb Hall].
  assert (Hall' : Forall (fun y => x + 1 ≤ y ≤ hi) l).
  { apply Forall_forall. intros y Hy.
    rewrite Forall_forall in Hx, Hall.
    specialize (Hx y Hy). specialize (Hall y Hy). lia. }
  specialize (IH _ _ Hsorted Hall'). simpl length. lia.
Qed.

(** X8. The ticks of a day lie on the axis: every tick is between 0 and 24,
    and there are at most 49 of them. *)
Theorem ticks_within_day (data : value) :
  ∃ rows ticks,
    chartData (getTodayData data) = Some rows ∧
    transitionTicks rows = Some ticks ∧
    Forall (fun x => hours 0 ≤ x ≤ hours 24) ticks ∧
    (length ticks ≤ 49)%nat.
Proof.
  destruct (chartData_total (getTodayData data))
    as (rows & Hrows & _ & Hbounds).
  destruct (transitionTicks_char rows) as (ticks & Hticks & Hsorted & Hmem).
  exists rows, ticks. split; [exact Hrows|]. split; [exact Hticks|].
  assert (Hall : Forall (fun x => hours 0 ≤ x ≤ hours 24) ticks).
  { apply Forall_forall. intros x Hx. apply Hmem in Hx. unfold hours in *.
    destruct Hx as [->|[->|(j & p & c & _ & Hc & _ & ->)]]; try lia.
    specialize (Hbounds c (list_elem_of_lookup_2 _ _ _ Hc)). lia. }
  split; [exact Hall|].
  pose proof (sorted_length_bound ticks _ _ Hsorted Hall) as Hlen.
  unfold hours in Hlen. lia.
Qed.

(** * Further properties: the shaded areas and the range strings *)

Lemma overlapAreas_covered (rows : list row) (x : Z) :
  covered x (overlapAreas rows) = true ↔
  ∃ r, r ∈ rows ∧ overlapNo r = true ∧ t r = x.
Proof.
  rewrite covered_iff. unfold overlapAreas, half_hour. split.
  - intros (ab & Hab & Hx).
    apply list_elem_of_In, in_map_iff in Hab as (r & <- & Hr).
    apply filter_In in Hr as [Hr Hon]. simpl in Hx.
    exists r. split; [by apply list_elem_of_In|]. split; [done|lia].
  - intros (r & Hr & Hon & <-). exists (t r, t r + 1). split; [|simpl; lia].
    apply list_elem_of_In, in_map_iff. exists r. split; [done|].
    apply filter_In. split; [by apply list_elem_of_In|done].
Qed.

(** X9. The chart and the list agree: for every snapshot, a half-hour slot
    lies in a shaded area of the chart exactly when it is covered by an
    interval of the overlap list. *)
Theorem shaded_areas_agree_with_list (data : value) :
  ∃ rows, chartData (getTodayData data) = Some rows ∧
    ∀ x, covered x (overlapAreas rows) =
         covered x (boolIntervals rows pickOverlap).
Proof.
  destruct (truthy (getTodayData data)) eqn:Htoday.
  - destruct (chartData_rows _ Htoday) as (rows & Hrows & Htimes & Hkeys).
    exists rows. split; [exact Hrows|]. intros x.
    pose proof (chartData_ascending _ Htimes) as Hasc.
    apply eq_true_iff_eq. rewrite overlapAreas_covered.
    destruct (decide (0 ≤ x < 48)) as [Hx|Hx].
    + destruct (timeline_point rows x Htimes Hx) as (r & Hr & <-).
      rewrite boolIntervals_covered by done. simpl. split.
      * intros (r' & Hr' & Hon & Ht).
        destruct (Hkeys r Hr) as (_ & Hm & Hs & ->).
        destruct (Hkeys r' Hr') as (_ & Hm' & Hs' & Hon').
        rewrite Hm, Hs, <- Ht, <- Hm', <- Hs', <- Hon'. exact Hon.
      * intros Hon. by exists r.
    + split.
      * intros (r & Hr & _ & <-).
        destruct Hx. by apply (timeline_bounds rows).
      * intros (ab & Hab & Hcov)%covered_iff.
        destruct (boolIntervals_wf rows pickOverlap Hasc) as [Hwf _].
        rewrite Forall_forall in Hwf. specialize (Hwf ab Hab).
        unfold hours in Hwf. lia.
  - exists []. split; [by apply chartData_falsy|]. done.
Qed.

Lemma append_inj_length (s1 s1' r r' : string) :
  String.length s1 = String.length s1' →
  s1 +:+ r = s1' +:+ r' → s1 = s1' ∧ r = r'.
Proof.
  revert s1'. induction s1 as [|c s1 IH]; intros [|c' s1'] Hlen Heq;
    try discriminate; [done|].
  simpl in Heq. injection Heq as -> Heq. injection Hlen as Hlen.
  destruct (IH s1' Hlen Heq) as [-> ->]. done.
Qed.

Lemma append_length (s1 s2 : string) :
  String.length (s1 +:+ s2) = (String.length s1 + String.length s2)%nat.
Proof. induction s1 as [|c s1 IH]; simpl; [done|]. by rewrite IH. Qed.

(** The 49 coordinates of a day, checked one by one: the formatted time
    has five characters, and two coordinates with the same formatted time
    are equal. *)
Lemma formatHalfHour_day_check :
  forallb
    (fun x =>
       (String.length (formatHalfHour x) =? 5)%nat
       && forallb
            (fun y =>
               implb (String.eqb (formatHalfHour x) (formatHalfHour y))
                 (x =? y))
            (seqZ 0 49))
    (seqZ 0 49) = true.
Proof. vm_compute. reflexivity. Qed.

Lemma formatHalfHour_day (x : Z) :
  0 ≤ x ≤ hours 24 →
  String.length (formatHalfHour x) = 5%nat ∧
  ∀ y, 0 ≤ y ≤ hours 24 → formatHalfHour x = formatHalfHour y → x = y.
Proof.
  intros Hx. pose proof formatHalfHour_day_check as Hcheck.
  rewrite forallb_forall in Hcheck.
  specialize (Hcheck x). rewrite andb_true_iff in Hcheck.
  destruct Hcheck as [Hlen Hinj].
  { apply list_elem_of_In, elem_of_seqZ. unfold hours in Hx. lia. }
  split; [by apply Nat.eqb_eq|]. intros y Hy Heq.
  rewrite forallb_forall in Hinj. specialize (Hinj y).
  rewrite Heq, String.eqb_refl in Hinj. apply Z.eqb_eq, Hinj.
  apply list_elem_of_In, elem_of_seqZ. unfold hours in Hy. lia.
Qed.

(** X10. Within a day a range string determines its interval: a formatted
    time has five characters and determines its coordinate, and two
    intervals with the same range string are equal. *)
Theorem formatInterval_injective (ab cd : Z * Z) :
  0 ≤ ab.1 ≤ hours 24 → 0 ≤ ab.2 ≤ hours 24 →
  0 ≤ cd.1 ≤ hours 24 → 0 ≤ cd.2 ≤ hours 24 →
  String.length (formatInterval ab) = 11%nat ∧
  (formatHalfHour ab.1 = formatHalfHour cd.1 → ab.1 = cd.1) ∧
  (formatInterval ab = formatInterval cd → ab = cd).
Proof.
  intros Ha Hb Hc Hd.
  destruct (formatHalfHour_day _ Ha) as [Hla Hia].
  destruct (formatHalfHour_day _ Hb) as [Hlb Hib].
  destruct (formatHalfHour_day _ Hc) as [Hlc _].
  split; [|split].
  - unfold formatInterval. rewrite !append_length, Hla, Hlb. reflexivity.
  - by apply Hia.
  - unfold formatInterval. intros Heq.
    apply append_inj_length in Heq as [H1 Heq]; [|congruence].
    simpl in Heq. injection Heq as H2.
    destruct ab, cd. simpl in *. f_equal; auto.
Qed.

Lemma formatInterval_injective_witness :
  0 ≤ 4 ≤ hours 24 ∧ 0 ≤ 10 ≤ hours 24 ∧
  String.length (formatInterval (4, 10)) = 11%nat.
Proof.
  split; [unfold hours; lia|]. split; [unfold hours; lia|].
  apply (formatInterval_injective (4, 10) (4, 10)); unfold hours; simpl; lia.
Defined.

(** * Further properties: the hourly helpers *)

Lemma normalizeStatusKey_canonical (raw : value) :
  ∃ s, normalizeStatusKey raw = VStr s ∧ s ∈ CANONICAL.
Proof.
  assert (Hmaybe : "maybe"%string ∈ CANONICAL)
    by (unfold CANONICAL; rewrite !elem_of_cons; auto).
  destruct raw as [| |b|n|s|items|fields];
    try (exists "maybe"%string; split; [|exact Hmaybe];
         apply normalizeStatusKey_not_str; intros ?; discriminate).
  rewrite normalizeStatusKey_str.
  destruct (existsb _ _) eqn:Hs; eexists; split; try reflexivity.
  - by apply existsb_canonical.
  - exact Hmaybe.
Qed.

Lemma normalizeStatusKey_idem (raw : value) :
  normalizeStatusKey (normalizeStatusKey raw) = normalizeStatusKey raw.
Proof.
  destruct (normalizeStatusKey_canonical raw) as (s & -> & Hs).
  rewrite normalizeStatusKey_str.
  by rewrite (proj2 (existsb_canonical s) Hs).
Qed.

(** A group that is present but falsy has no usable hour. *)
Lemma normalizeStatusKey_falsy_group (group : value) (k : string) :
  truthy group = false →
  normalizeStatusKey (get_opt group k) = VStr "maybe".
Proof.
  destruct group as [| |b|n|s|items|fields]; try discriminate;
    try reflexivity.
  simpl. destruct s; [|discriminate]. intros _.
  unfold get_opt, get_prop. simpl. by destruct (String.eqb k "length").
Qed.




Lemma getCurrentSlotStatusKey_cases
    (data : value) (groupKey : string) (nowHours : Z) :
  getCurrentSlotStatusKey data groupKey nowHours =
  Some (if truthy (getTodayData data)
           && truthy (get_opt (getTodayData data) groupKey)
        then normalizeStatusKey
               (rawStatus (getTodayData data) groupKey
                  (Z.min 24 (Z.max 1 (nowHours + 1))))
        else VNull).
Proof.
  unfold getCurrentSlotStatusKey.
  destruct (truthy (getTodayData data)) eqn:Htoday; [|reflexivity].
  cbn [negb andb]. cbv iota. rewrite get_prop_truthy by done.
  cbv [mbind option_bind].
  destruct (truthy (get_opt (getTodayData data) groupKey)) eqn:Hgroup;
    [|reflexivity].
  cbn [negb]. cbv iota. by rewrite get_prop_truthy.
Qed.


Lemma get_opt_falsy (v : value) (k : string) :
  truthy v = false → truthy (get_opt v k) = false.
Proof.
  destruct v as [| |b|n|s|items|fields]; try discriminate; try reflexivity.
  simpl. destruct s; [|discriminate]. intros _.
  unfold get_opt, get_prop. simpl. by destruct (String.eqb k "length").
Qed.

Lemma getEffectiveStatus_normalized (raw : value) (minutes : Z) :
  getEffectiveStatus (normalizeStatusKey raw) minutes =
  getEffectiveStatus raw minutes.
Proof. unfold getEffectiveStatus. by rewrite normalizeStatusKey_idem. Qed.

(** The status in effect at a minute of an hour, read from the key of
    the current slot of a group, is the expanded status of the group at
    the half-hour coordinate containing that minute. *)
Lemma current_status_on_timeline
    (data : value) (gkey : string) (nowHours minutes : Z) (x : Z) :
  0 ≤ nowHours ≤ 23 →
  x = hours nowHours + (if minutes <? 30 then 0 else half_hour) →
  ∃ current,
    getCurrentSlotStatusKey data gkey nowHours = Some current ∧
    getEffectiveStatus current minutes =
    VStr (expandedStatus (getTodayData data) gkey x).
Proof.
  intros Hhour ->. eexists. split; [apply getCurrentSlotStatusKey_cases|].
  unfold expandedStatus, hours, half_hour.
  replace (Z.min 24 (Z.max 1 (nowHours + 1))) with (nowHours + 1) by lia.
  replace ((2 * nowHours + (if minutes <? 30 then 0 else 1)) `div` 2 + 1)
    with (nowHours + 1)
    by (destruct (minutes <? 30); Z.div_mod_to_equations; lia).
  replace ((2 * nowHours + (if minutes <? 30 then 0 else 1)) `mod` 2 =? 0)
    with (minutes <? 30)
    by (destruct (minutes <? 30); symmetry;
        [apply Z.eqb_eq|apply Z.eqb_neq]; Z.div_mod_to_equations; lia).
  destruct (truthy (getTodayData data)
            && truthy (get_opt (getTodayData data) gkey)) eqn:Hpresent.
  - rewrite getEffectiveStatus_normalized.
    rewrite getEffectiveStatus_table, expandHourToHalves_table.
    reflexivity.
  - assert (Hmaybe : normalizeStatusKey
              (rawStatus (getTodayData data) gkey (nowHours + 1)) =
            VStr "maybe").
    { unfold rawStatus. apply normalizeStatusKey_falsy_group.
      apply andb_false_iff in Hpresent as [Htoday|Hgroup]; [|done].
      by apply get_opt_falsy. }
    unfold expandHourToHalves. rewrite Hmaybe.
    by destruct (minutes <? 30).
Qed.

(** X13. The status in effect now agrees with the chart: for a snapshot with
    today data and an hour of the day, the effective status obtained for
    each group of the dashboard from the key of the current slot is the
    key that the timeline holds for the group at the half-hour point
    containing now (a missing or empty group reads ['maybe'] on both
    sides). *)
Theorem current_status_agrees_with_chart
    (data : value) (nowHours minutes : Z) :
  truthy (getTodayData data) = true → 0 ≤ nowHours ≤ 23 →
  ∃ rows currentHome currentMedic currentReserve,
    chartData (getTodayData data) = Some rows ∧
    getCurrentSlotStatusKey data GROUP_HOME nowHours = Some currentHome ∧
    getCurrentSlotStatusKey data GROUP_MEDIC nowHours = Some currentMedic ∧
    getCurrentSlotStatusKey data GROUP_RESERVE nowHours =
      Some currentReserve ∧
    ∀ r, r ∈ rows →
      t r = hours nowHours + (if minutes <? 30 then 0 else half_hour) →
      getEffectiveStatus currentHome minutes = VStr (homeKey r) ∧
      getEffectiveStatus currentMedic minutes = VStr (medicKey r) ∧
      getEffectiveStatus currentReserve minutes = VStr (reserveKey r).
Proof.
  intros Htoday Hhour.
  destruct (chartData_rows _ Htoday) as (rows & Hrows & _ & Hkeys).
  destruct (current_status_on_timeline data GROUP_HOME nowHours minutes
              _ Hhour eq_refl) as (currentHome & HcH & HeH).
  destruct (current_status_on_timeline data GROUP_MEDIC nowHours minutes
              _ Hhour eq_refl) as (currentMedic & HcM & HeM).
  destruct (current_status_on_timeline data GROUP_RESERVE nowHours minutes
              _ Hhour eq_refl) as (currentReserve & HcR & HeR).
  exists rows, currentHome, currentMedic, currentReserve.
  repeat (split; [assumption|]).
  intros r Hr Ht. destruct (Hkeys r Hr) as (-> & -> & -> & _).
  rewrite Ht. auto.
Qed.

Lemma current_status_agrees_with_chart_witness :
  ∃ rows, chartData (getTodayData sampleSnapshot) = Some rows.
Proof.
  destruct (current_status_agrees_with_chart sampleSnapshot 4 15 eq_refl)
    as (rows & _ & _ & _ & Hrows & _); [lia|].
  by exists rows.
Defined.

(** * Further properties: the table summary *)









(** * Further properties: group numbers *)

Lemma pretty_N_char_digit (d : N) :
  (d < 10)%N →
  isDigit (pretty_N_char d) = true ∧
  digitValue (pretty_N_char d) = Z.of_N d.
Proof.
  intros Hd.
  assert (d = 0 ∨ d = 1 ∨ d = 2 ∨ d = 3 ∨ d = 4 ∨
          d = 5 ∨ d = 6 ∨ d = 7 ∨ d = 8 ∨ d = 9)%N
    as [->|[->|[->|[->|[->|[->|[->|[->|[->| ->]]]]]]]]] by lia;
    by compute.
Qed.

Lemma pretty_N_go_append (x : N) :
  ∀ s rest, pretty_N_go x s +:+ rest = pretty_N_go x (s +:+ rest).
Proof.
  induction (N.lt_wf_0 x) as [x _ IH]. intros s rest.
  destruct (decide (0 < x)%N) as [Hx|Hx].
  - rewrite !(pretty_N_go_step x) by done.
    rewrite IH by (by apply N.div_lt). reflexivity.
  - assert (x = 0%N) as -> by lia. by rewrite !pretty_N_go_0.
Qed.

(** Reading back the digits that print a positive number gives the
    number, whatever follows them. *)
Lemma matchDigits_pretty (x : N) :
  ∀ s seen, (0 < x)%N →
    matchDigits seen 0 (pretty_N_go x s) = matchDigits true (Z.of_N x) s.
Proof.
  induction (N.lt_wf_0 x) as [x _ IH]. intros s seen Hx.
  rewrite pretty_N_go_step by done.
  destruct (pretty_N_char_digit (x `mod` 10)%N) as [Hdigit Hvalue];
    [by apply N.mod_lt|].
  assert (Hdiv : 10 * Z.of_N (x `div` 10) + Z.of_N (x `mod` 10) = Z.of_N x).
  { rewrite (N.div_mod x 10) at 3 by done.
    by rewrite N2Z.inj_add, N2Z.inj_mul. }
  destruct (decide (0 < x `div` 10)%N) as [Hq|Hq].
  - rewrite IH by (done || by apply N.div_lt).
    cbn [matchDigits]. by rewrite Hdigit, Hvalue, Hdiv.
  - assert ((x `div` 10)%N = 0%N) as Hzero.
    { destruct (x `div` 10)%N as [|q]; [done|]. by destruct Hq. }
    rewrite Hzero in Hdiv. rewrite Hzero, pretty_N_go_0. cbn [matchDigits].
    by rewrite Hdigit, Hvalue, <- Hdiv.
Qed.

(** X15. The group number is read back from a key: for a number [n] that
    JavaScript holds exactly, the key made of [GPV], the digits of [n]
    and a rest that does not begin with a digit has group number [n]. *)
Theorem getGroupNumber_round_trip (n : Z) (rest : string) :
  0 ≤ n ≤ 9007199254740991 →
  match rest with
  | String c _ => isDigit c = false
  | EmptyString => True
  end →
  getGroupNumber ("GPV" +:+ String_of_number n +:+ rest) = Some n.
Proof.
  intros Hn Hrest.
  assert (Hstop : ∀ acc, matchDigits true acc rest = Some acc).
  { intros acc. destruct rest as [|c rest]; [done|].
    cbn [matchDigits]. by rewrite Hrest. }
  unfold getGroupNumber, String_of_number.
  destruct n as [|p|p]; [| |lia].
  - change (matchDigits false 0 (String "0" rest) = Some 0).
    cbn. apply Hstop.
  - change (matchDigits false 0 (pretty_N_go (N.pos p) "" +:+ rest) =
            Some (Z.pos p)).
    rewrite pretty_N_go_append, matchDigits_pretty by done.
    apply Hstop.
Qed.

Lemma getGroupNumber_round_trip_witness :
  getGroupNumber ("GPV" +:+ String_of_number 12 +:+ ".1") = Some 12.
Proof.
  apply (getGroupNumber_round_trip 12 ".1"); [lia|reflexivity].
Defined.

(** * Further properties: overlap and the empty state *)

Lemma noIntervals_covered
    (rows : list row) (pickKey : row → value) (r : row) :
  ascending (-1) rows → r ∈ rows →
  covered (t r) (noIntervals rows pickKey) = isNoAtHour (pickKey r).
Proof.
  intros Hasc Hr. rewrite noIntervals_ascending by done.
  by apply (proj1 (scan_covered (fun r => isNoAtHour (pickKey r))
                     rows _ Hasc)).
Qed.

Lemma covered_outside (x : Z) (l : list (Z * Z)) :
  wfIntervals l → ¬ 0 ≤ x < 48 → covered x l = false.
Proof.
  intros [Hwf _] Hx. apply not_true_iff_false.
  intros (ab & Hab & Hcov)%covered_iff.
  rewrite Forall_forall in Hwf. specialize (Hwf ab Hab).
  unfold hours in Hwf. lia.
Qed.

(** X16. The overlap list is the intersection of the medic and the reserve
    lists: for every snapshot, a half-hour slot is covered by an overlap
    interval exactly when it is covered both by a medic interval and by a
    reserve interval. *)
Theorem overlap_is_intersection (data : value) :
  ∃ rows, chartData (getTodayData data) = Some rows ∧
    ∀ x, covered x (boolIntervals rows pickOverlap) =
         covered x (noIntervals rows pickMedic)
         && covered x (noIntervals rows pickReserve).
Proof.
  destruct (truthy (getTodayData data)) eqn:Htoday.
  - destruct (chartData_rows _ Htoday) as (rows & Hrows & Htimes & Hkeys).
    exists rows. split; [exact Hrows|]. intros x.
    pose proof (chartData_ascending _ Htimes) as Hasc.
    destruct (decide (0 ≤ x < 48)) as [Hx|Hx].
    + destruct (timeline_point rows x Htimes Hx) as (r & Hr & <-).
      rewrite boolIntervals_covered, !noIntervals_covered by done.
      destruct (Hkeys r Hr) as (_ & _ & _ & Hoverlap). exact Hoverlap.
    + rewrite !covered_outside;
        auto using boolIntervals_wf, noIntervals_wf.
  - exists []. split; [by apply chartData_falsy|]. done.
Qed.

